(** * go.d.plugin: collection cycle, entity registry and chart synchronisation

    A shallow embedding of the collector modules [wmi], [ntpd] and
    [nvidia_smi] (their [New], [Init], [Check], [Collect] and [Cleanup]
    methods) and of the chart-lifecycle engine behind [WMI.collect]. *)

From Stdlib Require Import ZArith QArith List Lia Ascii.
From stdpp Require Import base option list strings gmap fin_maps.

Local Open Scope Z_scope.

(** ** Go values *)

Module Go.

(** A Go [map[string]V] value is either [nil] or an allocated map. *)
Definition map (V : Type) : Type := option (gmap string V).

(** [len(m)]: zero on a nil map. *)
Definition len {V : Type} (m : option (gmap string V)) : nat :=
  match m with
  | None => 0%nat
  | Some m => size m
  end.

(** A call either returns or panics (nil dereference). *)
Inductive outcome (A : Type) : Type :=
| Returns (a : A)
| Panics.
Arguments Returns {A} a.
Arguments Panics {A}.

Definition second : Z := 1000000000.
Definition minute : Z := 60 * second.

End Go.

(** ** Entity classes

    The classes of dynamically discovered entities; each one is backed by
    the field of [WMI.cache] named in [WMI.registry]. *)

Inductive EntityClass : Type :=
| core
| volume
| nic
| thermal_zone
| process
| website
| cert_template
| db_instance
| db_instance_database_pair
| service
| sub_collector.

#[global] Instance EntityClass_eq_dec : EqDecision EntityClass.
Proof. solve_decision. Defined.

Definition all_classes : list EntityClass :=
  [core; volume; nic; thermal_zone; process; website; cert_template;
   db_instance; db_instance_database_pair; service; sub_collector].

(** ** Errors and the module logger *)

Inductive TransportFailure : Type :=
| ConnectionRefused
| TimedOut
| ExecFailed
| BadStatus (code : Z).

Inductive error : Type :=
| ConfigError (msg : string)
| TransportError (cause : TransportFailure)
| ErrBadPayload
| EntityMaterializationError (class : EntityClass) (id : string)
| ExternalError (msg : string).

(** [module.Base] carries the logger; a log line is a context and,
    for [Errorf("...: %v", err)] and [Error(err)], the error value. *)
Inductive logLine : Type :=
| LogMsg (msg : string)
| LogErr (ctx : string) (e : error).

Record Base : Type := { logged : list logLine }.

Definition Errorf (ctx : string) (e : error) (b : Base) : Base :=
  {| logged := logged b ++ [LogErr ctx e] |}.

Definition Error (e : error) (b : Base) : Base :=
  {| logged := logged b ++ [LogErr "" e] |}.

Definition ErrorMsg (msg : string) (b : Base) : Base :=
  {| logged := logged b ++ [LogMsg msg] |}.

(** ** Charts ([agent/module]) *)

Record Chart : Type := {
  ID : string;
  Dims : list string;
  Vars : list string
}.

(** [module.Charts] is a slice of charts. *)
Definition Charts : Type := list Chart.

(** Modelled from the spec: [getChart(id)] of the Chart Set interface
    (section 6), the method [Get] of [module.Charts], whose body is in
    package [agent/module]; it returns the first chart with the id. *)
Fixpoint Get (cs : Charts) (id : string) : option Chart :=
  match cs with
  | [] => None
  | ch :: cs' => if decide (ID ch = id) then Some ch else Get cs' id
  end.

(** Modelled from the spec: [hasChart(id)] of the Chart Set interface
    (section 6), the method [Has] of [module.Charts]. *)
Definition Has (cs : Charts) (id : string) : bool :=
  match Get cs id with
  | Some _ => true
  | None => false
  end.

(** ** The wmi module *)

Module WMI.

(** [Config] embeds [web.HTTP]: the request URL and the client timeout
    (nanoseconds). *)
Record Config : Type := {
  URL : string;
  Timeout : Z
}.

(** Handles of the external clients; a nil pointer is [None]. *)
Inductive HTTPClient : Type := HTTPClientFor (timeout : Z).
Inductive Prometheus : Type := PrometheusFor (c : HTTPClient) (url : string).

Record cache : Type := {
  cores : gmap string bool;
  volumes : gmap string bool;
  nics : gmap string bool;
  thermalZones : gmap string bool;
  processes : gmap string bool;
  iis : gmap string bool;
  adcs : gmap string bool;
  mssqlInstances : gmap string bool;
  mssqlDBs : gmap string bool;
  services : gmap string bool;
  collectors : gmap string bool;
  collection : gmap string bool
}.

Record WMI : Type := {
  base : Base;
  config : Config;
  charts : Charts;
  doCheck : bool;
  httpClient : option HTTPClient;
  prom : option Prometheus;
  wcache : cache
}.

Definition New : WMI := {|
  base := {| logged := [] |};
  config := {| URL := ""; Timeout := 5 * Go.second |};
  charts := [];
  doCheck := false;
  httpClient := None;
  prom := None;
  wcache := {|
    cores := ∅; volumes := ∅; nics := ∅; thermalZones := ∅;
    processes := ∅; iis := ∅; adcs := ∅; mssqlInstances := ∅;
    mssqlDBs := ∅; services := ∅; collectors := ∅; collection := ∅ |}
|}.

(** Field updates. *)
Definition with_base (b : Base) (w : WMI) : WMI :=
  {| base := b; config := config w; charts := charts w; doCheck := doCheck w;
     httpClient := httpClient w; prom := prom w; wcache := wcache w |}.
Definition with_config (c : Config) (w : WMI) : WMI :=
  {| base := base w; config := c; charts := charts w; doCheck := doCheck w;
     httpClient := httpClient w; prom := prom w; wcache := wcache w |}.
Definition with_charts (cs : Charts) (w : WMI) : WMI :=
  {| base := base w; config := config w; charts := cs; doCheck := doCheck w;
     httpClient := httpClient w; prom := prom w; wcache := wcache w |}.
Definition with_httpClient (c : option HTTPClient) (w : WMI) : WMI :=
  {| base := base w; config := config w; charts := charts w; doCheck := doCheck w;
     httpClient := c; prom := prom w; wcache := wcache w |}.
Definition with_prom (p : option Prometheus) (w : WMI) : WMI :=
  {| base := base w; config := config w; charts := charts w; doCheck := doCheck w;
     httpClient := httpClient w; prom := p; wcache := wcache w |}.
Definition with_cache (k : cache) (w : WMI) : WMI :=
  {| base := base w; config := config w; charts := charts w; doCheck := doCheck w;
     httpClient := httpClient w; prom := prom w; wcache := k |}.

(** The registry of an entity class is one map of the cache. *)
Definition registry (c : EntityClass) (k : cache) : gmap string bool :=
  match c with
  | core => cores k
  | volume => volumes k
  | nic => nics k
  | thermal_zone => thermalZones k
  | process => processes k
  | website => iis k
  | cert_template => adcs k
  | db_instance => mssqlInstances k
  | db_instance_database_pair => mssqlDBs k
  | service => services k
  | sub_collector => collectors k
  end.

Definition with_registry (c : EntityClass) (m : gmap string bool) (k : cache)
  : cache :=
  match c with
  | core =>
    {| cores := m; volumes := volumes k; nics := nics k;
       thermalZones := thermalZones k; processes := processes k;
       iis := iis k; adcs := adcs k; mssqlInstances := mssqlInstances k;
       mssqlDBs := mssqlDBs k; services := services k;
       collectors := collectors k; collection := collection k |}
  | volume =>
    {| cores := cores k; volumes := m; nics := nics k;
       thermalZones := thermalZones k; processes := processes k;
       iis := iis k; adcs := adcs k; mssqlInstances := mssqlInstances k;
       mssqlDBs := mssqlDBs k; services := services k;
       collectors := collectors k; collection := collection k |}
  | nic =>
    {| cores := cores k; volumes := volumes k; nics := m;
       thermalZones := thermalZones k; processes := processes k;
       iis := iis k; adcs := adcs k; mssqlInstances := mssqlInstances k;
       mssqlDBs := mssqlDBs k; services := services k;
       collectors := collectors k; collection := collection k |}
  | thermal_zone =>
    {| cores := cores k; volumes := volumes k; nics := nics k;
       thermalZones := m; processes := processes k; iis := iis k;
       adcs := adcs k; mssqlInstances := mssqlInstances k;
       mssqlDBs := mssqlDBs k; services := services k;
       collectors := collectors k; collection := collection k |}
  | process =>
    {| cores := cores k; volumes := volumes k; nics := nics k;
       thermalZones := thermalZones k; processes := m; iis := iis k;
       adcs := adcs k; mssqlInstances := mssqlInstances k;
       mssqlDBs := mssqlDBs k; services := services k;
       collectors := collectors k; collection := collection k |}
  | website =>
    {| cores := cores k; volumes := volumes k; nics := nics k;
       thermalZones := thermalZones k; processes := processes k; iis := m;
       adcs := adcs k; mssqlInstances := mssqlInstances k;
       mssqlDBs := mssqlDBs k; services := services k;
       collectors := collectors k; collection := collection k |}
  | cert_template =>
    {| cores := cores k; volumes := volumes k; nics := nics k;
       thermalZones := thermalZones k; processes := processes k;
       iis := iis k; adcs := m; mssqlInstances := mssqlInstances k;
       mssqlDBs := mssqlDBs k; services := services k;
       collectors := collectors k; collection := collection k |}
  | db_instance =>
    {| cores := cores k; volumes := volumes k; nics := nics k;
       thermalZones := thermalZones k; processes := processes k;
       iis := iis k; adcs := adcs k; mssqlInstances := m;
       mssqlDBs := mssqlDBs k; services := services k;
       collectors := collectors k; collection := collection k |}
  | db_instance_database_pair =>
    {| cores := cores k; volumes := volumes k; nics := nics k;
       thermalZones := thermalZones k; processes := processes k;
       iis := iis k; adcs := adcs k; mssqlInstances := mssqlInstances k;
       mssqlDBs := m; services := services k; collectors := collectors k;
       collection := collection k |}
  | service =>
    {| cores := cores k; volumes := volumes k; nics := nics k;
       thermalZones := thermalZones k; processes := processes k;
       iis := iis k; adcs := adcs k; mssqlInstances := mssqlInstances k;
       mssqlDBs := mssqlDBs k; services := m; collectors := collectors k;
       collection := collection k |}
  | sub_collector =>
    {| cores := cores k; volumes := volumes k; nics := nics k;
       thermalZones := thermalZones k; processes := processes k;
       iis := iis k; adcs := adcs k; mssqlInstances := mssqlInstances k;
       mssqlDBs := mssqlDBs k; services := services k; collectors := m;
       collection := collection k |}
  end.

(** [m[id]] on a [map[string]bool]: false when the key is absent. *)
Definition known (m : gmap string bool) (id : string) : bool :=
  default false (m !! id).

(** Modelled from the spec: [validateConfig], which [Init] calls and
    which is defined in another file of package [wmi]; section 7 makes a
    missing required connection parameter a [ConfigError], and for this
    module the parameter is the URL. *)
Definition validateConfig (w : WMI) : option error :=
  if decide (URL (config w) = "") then Some (ConfigError "'url' is not set")
  else None.

Section Methods.

(** The constructors of the HTTP and Prometheus clients and the
    collection step are methods of [WMI] defined in other files. *)
Variable initHTTPClient : WMI -> error + HTTPClient.
Variable initPrometheusClient : WMI -> HTTPClient -> error + Prometheus.
Variable collect : WMI -> WMI * (Go.map Z * option error).

Definition Init (w : WMI) : WMI * bool :=
  match validateConfig w with
  | Some err => (with_base (Errorf "config validation" err (base w)) w, false)
  | None =>
    match initHTTPClient w with
    | inl err => (with_base (Errorf "init HTTP client" err (base w)) w, false)
    | inr client =>
      let w := with_httpClient (Some client) w in
      match initPrometheusClient w client with
      | inl err =>
          (with_base (Errorf "init prometheus clients" err (base w)) w, false)
      | inr p => (with_prom (Some p) w, true)
      end
    end
  end.

Definition Collect (w : WMI) : WMI * Go.map Z :=
  let '(w, (ms, err)) := collect w in
  let w := match err with
           | Some e => with_base (Error e (base w)) w
           | None => w
           end in
  if decide (Go.len ms = 0%nat) then (w, None) else (w, ms).

Definition Check (w : WMI) : WMI * bool :=
  let '(w, ms) := Collect w in (w, bool_decide (0 < Go.len ms)%nat).

End Methods.

(** [CloseIdleConnections] of [http.Client], called on a nil pointer,
    dereferences it. *)
Definition CloseIdleConnections (c : option HTTPClient) : Go.outcome unit :=
  match c with
  | Some _ => Go.Returns tt
  | None => Go.Panics
  end.

Definition Cleanup (w : WMI) : Go.outcome WMI :=
  match httpClient w with
  | Some _ =>
    match CloseIdleConnections (httpClient w) with
    | Go.Returns _ => Go.Returns w
    | Go.Panics => Go.Panics
    end
  | None => Go.Returns w
  end.

End WMI.

(** ** The ntpd module *)

Module NTPd.

Record Config : Type := {
  Address : string;
  Timeout : Z;
  CollectPeers : bool
}.

Section NTPd.

(** [ntpConn] is an interface; its implementations and the fixed
    [systemCharts] live in other files. *)
Variable ntpConn : Type.
Variable close : ntpConn -> unit.
Variable systemCharts : Charts.
Variable newNTPClient : Config -> error + ntpConn.

Record NTPd : Type := {
  base : Base;
  config : Config;
  charts : Charts;
  newClient : Config -> error + ntpConn;
  client : option ntpConn;
  findPeersTime : Z;
  findPeersEvery : Z;
  peerAddr : gmap string bool;
  peerIDs : list Z
}.

Definition New : NTPd := {|
  base := {| logged := [] |};
  config := {| Address := "127.0.0.1:123"; Timeout := 3 * Go.second;
               CollectPeers := true |};
  charts := systemCharts;
  newClient := newNTPClient;
  client := None;
  findPeersTime := 0;
  findPeersEvery := 3 * Go.minute;
  peerAddr := ∅;
  peerIDs := []
|}.

Definition with_base (b : Base) (n : NTPd) : NTPd :=
  {| base := b; config := config n; charts := charts n;
     newClient := newClient n; client := client n;
     findPeersTime := findPeersTime n; findPeersEvery := findPeersEvery n;
     peerAddr := peerAddr n;
     peerIDs := peerIDs n |}.
Definition with_config (c : Config) (n : NTPd) : NTPd :=
  {| base := base n; config := c; charts := charts n;
     newClient := newClient n; client := client n;
     findPeersTime := findPeersTime n; findPeersEvery := findPeersEvery n;
     peerAddr := peerAddr n;
     peerIDs := peerIDs n |}.
Definition with_client (c : option ntpConn) (n : NTPd) : NTPd :=
  {| base := base n; config := config n; charts := charts n;
     newClient := newClient n; client := c;
     findPeersTime := findPeersTime n; findPeersEvery := findPeersEvery n;
     peerAddr := peerAddr n;
     peerIDs := peerIDs n |}.

Variable collect : NTPd -> NTPd * (Go.map Z * option error).

Definition Init (n : NTPd) : NTPd * bool :=
  if decide (Address (config n) = "") then
    (with_base
       (ErrorMsg "config validation: 'address' can not be empty" (base n)) n,
     false)
  else (n, true).

Definition Collect (n : NTPd) : NTPd * Go.map Z :=
  let '(n, (mx, err)) := collect n in
  let n := match err with
           | Some e => with_base (Error e (base n)) n
           | None => n
           end in
  if decide (Go.len mx = 0%nat) then (n, None) else (n, mx).

Definition Check (n : NTPd) : NTPd * bool :=
  let '(n, mx) := Collect n in (n, bool_decide (0 < Go.len mx)%nat).

(** A method call on a nil interface value panics. *)
Definition call_close (c : option ntpConn) : Go.outcome unit :=
  match c with
  | Some conn => Go.Returns (close conn)
  | None => Go.Panics
  end.

Definition Cleanup (n : NTPd) : Go.outcome NTPd :=
  match client n with
  | Some _ =>
    match call_close (client n) with
    | Go.Returns _ => Go.Returns (with_client None n)
    | Go.Panics => Go.Panics
    end
  | None => Go.Returns n
  end.

End NTPd.

Arguments New {ntpConn} systemCharts newNTPClient.
Arguments base {ntpConn} n.
Arguments config {ntpConn} n.
Arguments charts {ntpConn} n.
Arguments client {ntpConn} n.
Arguments with_base {ntpConn} b n.
Arguments with_config {ntpConn} c n.
Arguments with_client {ntpConn} c n.
Arguments Init {ntpConn} n.
Arguments Collect {ntpConn} collect n.
Arguments Check {ntpConn} collect n.
Arguments call_close {ntpConn} close c.
Arguments Cleanup {ntpConn} close n.

End NTPd.

(** ** The nvidia_smi module *)

Module NvidiaSMI.

Record Config : Type := {
  Timeout : Z;
  BinaryPath : string;
  UseCSVFormat : bool
}.

Section NvidiaSMI.

(** [nvidiaSMI] is the interface of the exec wrapper. *)
Variable nvidiaSMI : Type.

Record NvidiaSMI : Type := {
  base : Base;
  config : Config;
  charts : Charts;
  binName : string;
  exec : option nvidiaSMI;
  gpuQueryProperties : list string;
  gpus : gmap string bool
}.

Definition New : NvidiaSMI := {|
  base := {| logged := [] |};
  config := {| Timeout := 5 * Go.second; BinaryPath := "";
               UseCSVFormat := true |};
  charts := [];
  binName := "nvidia-smi";
  exec := None;
  gpuQueryProperties := [];
  gpus := ∅
|}.

Definition with_base (b : Base) (nv : NvidiaSMI) : NvidiaSMI :=
  {| base := b; config := config nv; charts := charts nv;
     binName := binName nv; exec := exec nv;
     gpuQueryProperties := gpuQueryProperties nv; gpus := gpus nv |}.
Definition with_exec (e : option nvidiaSMI) (nv : NvidiaSMI) : NvidiaSMI :=
  {| base := base nv; config := config nv; charts := charts nv;
     binName := binName nv; exec := e;
     gpuQueryProperties := gpuQueryProperties nv; gpus := gpus nv |}.

(** [initNvidiaSMIExec] returns Go's pair [(smi, err)]: a wrapper that may
    be nil, and an error that may be nil. *)
Variable initNvidiaSMIExec : NvidiaSMI -> option nvidiaSMI * option error.
Variable collect : NvidiaSMI -> NvidiaSMI * (Go.map Z * option error).

Definition Init (nv : NvidiaSMI) : NvidiaSMI * bool :=
  match exec nv with
  | None =>
    let '(smi, err) := initNvidiaSMIExec nv in
    match err with
    | Some err => (with_base (Error err (base nv)) nv, false)
    | None => (with_exec smi nv, true)
    end
  | Some _ => (nv, true)
  end.

Definition Collect (nv : NvidiaSMI) : NvidiaSMI * Go.map Z :=
  let '(nv, (mx, err)) := collect nv in
  let nv := match err with
            | Some e => with_base (Error e (base nv)) nv
            | None => nv
            end in
  if decide (Go.len mx = 0%nat) then (nv, None) else (nv, mx).

Definition Check (nv : NvidiaSMI) : NvidiaSMI * bool :=
  let '(nv, mx) := Collect nv in (nv, bool_decide (0 < Go.len mx)%nat).

Definition Cleanup (nv : NvidiaSMI) : NvidiaSMI := nv.

End NvidiaSMI.

Arguments New {nvidiaSMI}.
Arguments base {nvidiaSMI} n.
Arguments config {nvidiaSMI} n.
Arguments exec {nvidiaSMI} n.
Arguments with_base {nvidiaSMI} b nv.
Arguments with_exec {nvidiaSMI} e nv.
Arguments Init {nvidiaSMI} initNvidiaSMIExec nv.
Arguments Collect {nvidiaSMI} collect nv.
Arguments Check {nvidiaSMI} collect nv.
Arguments Cleanup {nvidiaSMI} nv.

End NvidiaSMI.

(** ** Identifier templates

    Chart and dimension identifiers are [fmt.Sprintf] format strings with
    [%s] verbs, kept here already cut into literal pieces and verbs. *)

Inductive piece : Type :=
| Lit (s : string)
| Arg.

#[global] Instance piece_eq_dec : EqDecision piece.
Proof. solve_decision. Defined.

Definition format : Type := list piece.

(** [fmt.Sprintf] restricted to [%s] verbs and string operands, with Go's
    markers for a missing operand and for operands left over. *)
Fixpoint Sprintf (f : format) (args : list string) : string :=
  match f with
  | [] =>
    match args with
    | [] => ""
    | _ :: _ =>
      "%!(EXTRA " +:+
        String.concat ", " (List.map (fun a => "string=" +:+ a) args) +:+ ")"
    end
  | Lit s :: f' => s +:+ Sprintf f' args
  | Arg :: f' =>
    match args with
    | a :: args' => a +:+ Sprintf f' args'
    | [] => "%!s(MISSING)" +:+ Sprintf f' []
    end
  end.

(** [strings.Split(s, sep)] for a separator of one character. *)
Fixpoint Split (s : string) (sep : ascii) : list string :=
  match s with
  | EmptyString => [""]
  | String ch s' =>
    if decide (ch = sep) then "" :: Split s' sep
    else match Split s' sep with
         | p :: ps => String ch p :: ps
         | [] => [String ch ""]
         end
  end.

(** Modelled from the spec: the ChartTemplate of section 3, a
    parameterised chart identifier with the dimension and variable
    identifier templates; the template tables ([cpuCoreChartsTmpl],
    [diskChartsTmpl], ...) are data of another file of package [wmi]. *)
Record ChartTmpl : Type := {
  tID : format;
  tDims : list format;
  tVars : list format
}.

(** Modelled from the spec: the id substituted into the chart identifier
    and into every dimension and variable identifier (section 4.2), by
    [fmt.Sprintf] as the test does for [chart.ID]. *)
Definition instantiateChart (t : ChartTmpl) (args : list string) : Chart :=
  {| ID := Sprintf (tID t) args;
     Dims := List.map (fun d => Sprintf d args) (tDims t);
     Vars := List.map (fun v => Sprintf v args) (tVars t) |}.

(** ** Composite entity identifiers *)

Module EntityID.

(** Modelled from the spec: the documented separator of composite keys
    (section 3). *)
Definition separator : ascii := ":"%char.

(** Modelled from the spec: a composite EntityID joins the two
    identifiers with the separator, [instance:database] (sections 3
    and 9); the function that builds the keys of [cache.mssqlDBs] is in
    another file of package [wmi]. *)
Definition pair (instance database : string) : string :=
  instance +:+ String separator database.

(** Modelled from the spec: the naive splitting on the first occurrence
    of the separator (section 9); [None] when there is no separator. *)
Fixpoint cut (s : string) : option (string * string) :=
  match s with
  | EmptyString => None
  | String ch s' =>
    if decide (ch = separator) then Some ("", s')
    else match cut s' with
         | Some (a, b) => Some (String ch a, b)
         | None => None
         end
  end.

(** Whether an identifier contains the separator. *)
Fixpoint has_separator (s : string) : bool :=
  match s with
  | EmptyString => false
  | String ch s' => if decide (ch = separator) then true else has_separator s'
  end.

End EntityID.

(** ** Snapshot Normalizer *)

Module Normalizer.

(** Modelled from the spec: a raw label/value sample of section 4.1:
    metric name, label set and value. *)
Record Sample : Type := {
  sname : string;
  slabels : list (string * string);
  svalue : Q
}.

(** Modelled from the spec: what the Sample Source hands over (section
    6): bytes that do not decode, or the decoded samples; the
    exposition-format parser is an external collaborator. *)
Inductive Payload : Type :=
| Malformed (bytes : string)
| Exposition (doc : list Sample).

(** Modelled from the spec: where a family's entity identifier comes
    from: no entity, one label, or the two labels of a
    database-within-instance pair (sections 3 and 4.1). *)
Inductive Scope : Type :=
| Global
| PerEntity (c : EntityClass) (label : string)
| PerDatabase (instanceLabel databaseLabel : string).

(** Modelled from the spec: a recognised sample family of section 4.1:
    its name, its scope, the metric_id template (fixed prefix,
    identifier, fixed suffix) and the multiplier of its fixed-point
    representation. *)
Record Family : Type := {
  fname : string;
  fscope : Scope;
  fmetric : format;
  fmult : Z
}.

Definition classOf (sc : Scope) : option EntityClass :=
  match sc with
  | Global => None
  | PerEntity c _ => Some c
  | PerDatabase _ _ => Some db_instance_database_pair
  end.

Definition label (name : string) (s : Sample) : option string :=
  match List.find (fun kv => bool_decide (fst kv = name)) (slabels s) with
  | Some kv => Some (snd kv)
  | None => None
  end.

(** A sample read through its family: the entity it belongs to and the
    operands of the metric_id template. *)
Record Reading : Type := {
  rfamily : Family;
  rentity : option (EntityClass * string);
  rargs : list string
}.

(** Modelled from the spec: section 4.1, a sample is recognised through
    its family and samples of unknown families are dropped; a per-entity
    family takes the EntityID from the label set, and the
    database-within-instance family joins two labels into the composite
    key.  The operands follow the order of the test's own
    [fmt.Sprintf(chart.ID, db, instance)]. *)
Definition recognize (fams : list Family) (s : Sample) : option Reading :=
  match List.find (fun F => bool_decide (fname F = sname s)) fams with
  | None => None
  | Some F =>
    match fscope F with
    | Global => Some {| rfamily := F; rentity := None; rargs := [] |}
    | PerEntity c l =>
      match label l s with
      | Some v => Some {| rfamily := F; rentity := Some (c, v); rargs := [v] |}
      | None => None
      end
    | PerDatabase il dl =>
      match label il s, label dl s with
      | Some i, Some d =>
        Some {| rfamily := F;
                rentity := Some (db_instance_database_pair, EntityID.pair i d);
                rargs := [d; i] |}
      | _, _ => None
      end
    end
  end.

(** Modelled from the spec: the metric_id is the fixed prefix, the
    EntityID and the fixed suffix (section 4.1). *)
Definition metricID (r : Reading) : string :=
  Sprintf (fmetric (rfamily r)) (rargs r).

(** Modelled from the spec: the unit policy of section 4.1, scaling by
    the family's multiplier and truncating; the floating-point value of
    a sample is taken as the rational it denotes. *)
Definition scale (mult : Z) (v : Q) : Z :=
  Z.quot (Qnum v * mult) (Zpos (Qden v)).

Record Normalized : Type := {
  snapshot : gmap string Z;
  seen : list (EntityClass * string)
}.

Definition observe (e : EntityClass * string) (l : list (EntityClass * string))
  : list (EntityClass * string) :=
  if decide (e ∈ l) then l else l ++ [e].

(** The empty snapshot and seen set a cycle starts from. *)
Definition start : Normalized := {| snapshot := ∅; seen := [] |}.

(** Modelled from the spec: one step of the Normalizer (section 4.1):
    the metric of a recognised sample enters the snapshot and its
    EntityID enters the per-cycle seen set. *)
Definition normalizeSample (fams : list Family) (acc : Normalized) (s : Sample)
  : Normalized :=
  match recognize fams s with
  | None => acc
  | Some r =>
    {| snapshot := <[metricID r := scale (fmult (rfamily r)) (svalue s)]>
                     (snapshot acc);
       seen := match rentity r with
               | Some e => observe e (seen acc)
               | None => seen acc
               end |}
  end.

(** Modelled from the spec: the Snapshot Normalizer (section 4.1), which
    fails the cycle with [ErrBadPayload] when the input does not decode. *)
Definition normalize (fams : list Family) (p : Payload) : error + Normalized :=
  match p with
  | Malformed _ => inl ErrBadPayload
  | Exposition doc => inr (fold_left (normalizeSample fams) doc start)
  end.

(** The seen-set of one entity class. *)
Definition seenIDs (c : EntityClass) (l : list (EntityClass * string))
  : list string :=
  List.map snd (List.filter (fun e => bool_decide (fst e = c)) l).

End Normalizer.

(** ** Entity Registry and Chart Synchronizer *)

Module Synchronizer.

Import Normalizer.

(** Modelled from the spec: [addChart(definition)] of the Chart Set
    (section 6); a chart whose id is already present is refused, the
    collision of section 4.2. *)
Definition Add (ch : Chart) (cs : Charts) : option Charts :=
  if Has cs (ID ch) then None else Some (cs ++ [ch]).

(** Modelled from the spec: the charts of one entity are added one after
    the other; the first refusal ends the attempt and nothing is taken
    back, since the synchronizer never deletes (section 2, item 4). *)
Fixpoint addCharts (new : list Chart) (cs : Charts) : Charts * bool :=
  match new with
  | [] => (cs, true)
  | ch :: rest =>
    match Add ch cs with
    | Some cs' => addCharts rest cs'
    | None => (cs, false)
    end
  end.

(** Modelled from the spec: one placeholder per EntityID component
    (section 3): the operands are the identifier itself, or for the
    composite key its two components, split at the first separator
    (section 9) and in the order of the test's
    [fmt.Sprintf(chart.ID, db, instance)]. *)
Definition tmplArgs (c : EntityClass) (id : string) : option (list string) :=
  match c with
  | db_instance_database_pair =>
    match EntityID.cut id with
    | Some (instance, db) => Some [db; instance]
    | None => None
    end
  | _ => Some [id]
  end.

Section Tables.

(** The static tables: the chart templates of each class
    ([cpuCoreChartsTmpl], [diskChartsTmpl], ...) and the sample
    families; both are data of other files of the package. *)
Variable tmpl : EntityClass -> list ChartTmpl.
Variable fams : list Family.

(** Modelled from the spec: the declared dimensions of section 4.2: a
    dimension or variable template is declared when a family of the
    class emits that metric_id. *)
Definition declared (c : EntityClass) (f : format) : bool :=
  existsb
    (fun F => bool_decide (classOf (fscope F) = Some c ∧ fmetric F = f))
    fams.

(** Modelled from the spec: a template that references no undeclared
    dimension (section 4.2). *)
Definition wellDeclared (c : EntityClass) (t : ChartTmpl) : bool :=
  forallb (declared c) (tDims t ++ tVars t).

(** Modelled from the spec: instantiation of a class's ChartTemplate
    with the id substituted into every chart and dimension identifier
    (section 4.2); it fails when a template references undeclared
    dimensions or the identifier has not the components the
    placeholders ask for. *)
Definition instantiate (c : EntityClass) (id : string) : option (list Chart) :=
  if forallb (wellDeclared c) (tmpl c) then
    match tmplArgs c id with
    | Some args => Some (List.map (fun t => instantiateChart t args) (tmpl c))
    | None => None
    end
  else None.

(** Modelled from the spec: the charts of one entity are instantiated
    and added to the Chart Set (section 4.2). *)
Definition materialize (c : EntityClass) (id : string) (cs : Charts)
  : Charts * bool :=
  match instantiate c id with
  | Some chs => addCharts chs cs
  | None => (cs, false)
  end.

(** Modelled from the spec: one entity of [sync] (section 4.2): an id
    already materialized is skipped; otherwise its charts are added
    and, on success, the id is marked in the registry; a failure is
    reported for that entity alone. *)
Definition syncEntity (c : EntityClass) (id : string)
    (st : WMI.cache * Charts)
  : (WMI.cache * Charts) * list (EntityClass * string) :=
  let '(k, cs) := st in
  if WMI.known (WMI.registry c k) id then (st, [])
  else
    let '(cs', ok) := materialize c id cs in
    if ok then
      ((WMI.with_registry c (<[id := true]> (WMI.registry c k)) k, cs'), [])
    else ((k, cs'), [(c, id)]).

(** Modelled from the spec: [sync(entityClass, seenIDs)] (section 4.2);
    it returns the new registry and Chart Set and the entities whose
    materialization failed. *)
Fixpoint sync (c : EntityClass) (seenIDs : list string)
    (st : WMI.cache * Charts)
  : (WMI.cache * Charts) * list (EntityClass * string) :=
  match seenIDs with
  | [] => (st, [])
  | id :: rest =>
    let '(st1, f1) := syncEntity c id st in
    let '(st2, f2) := sync c rest st1 in
    (st2, f1 ++ f2)
  end.

(** Modelled from the spec: the synchronizer is run against the
    seen-set of every entity class (section 4.3). *)
Fixpoint syncClasses (classes : list EntityClass)
    (seen : list (EntityClass * string)) (st : WMI.cache * Charts)
  : (WMI.cache * Charts) * list (EntityClass * string) :=
  match classes with
  | [] => (st, [])
  | c :: rest =>
    let '(st1, f1) := sync c (seenIDs c seen) st in
    let '(st2, f2) := syncClasses rest seen st1 in
    (st2, f1 ++ f2)
  end.

(** Modelled from the spec: the synchronizer over every EntityClass
    (section 4.3). *)
Definition syncAll (seen : list (EntityClass * string))
    (st : WMI.cache * Charts)
  : (WMI.cache * Charts) * list (EntityClass * string) :=
  syncClasses all_classes seen st.

End Tables.

End Synchronizer.

(** ** Collection Cycle Controller *)

Module Controller.

Import Normalizer Synchronizer.

(** Modelled from the spec: what the Sample Source produced for one
    cycle (section 4.3): no response, or a reply with its status. *)
Inductive Response : Type :=
| NoResponse (cause : TransportFailure)
| Reply (status : Z) (body : Payload).

(** Modelled from the spec: the transport failures of section 4.3:
    connection refused, timeout, exec failure and a status outside
    2xx. *)
Definition fetch (r : Response) : error + Payload :=
  match r with
  | NoResponse cause => inl (TransportError cause)
  | Reply status body =>
    if decide (200 <= status < 300) then inr body
    else inl (TransportError (BadStatus status))
  end.

(** Modelled from the spec: entity-level errors are only surfaced as
    diagnostics (section 7). *)
Definition logFailures (fs : list (EntityClass * string)) (b : Base) : Base :=
  fold_left
    (fun b f => Errorf "chart instantiation"
                  (EntityMaterializationError (fst f) (snd f)) b)
    fs b.

Section Tables.

Variable tmpl : EntityClass -> list ChartTmpl.
Variable fams : list Family.

(** Modelled from the spec: [collect()] of section 4.3, the method
    [WMI.collect] that [WMI.Collect] calls, defined in another file of
    package [wmi].  A transport failure or a Normalizer failure returns no snapshot and
    the error; otherwise the synchronizer runs on the seen-sets and
    the snapshot is returned, entity-level failures being logged
    only. *)
Definition collect (r : Response) (w : WMI.WMI)
  : WMI.WMI * (Go.map Z * option error) :=
  match fetch r with
  | inl err => (w, (None, Some err))
  | inr body =>
    match normalize fams body with
    | inl err => (w, (None, Some err))
    | inr n =>
      let '((k, cs), failures) :=
        syncAll tmpl fams (seen n) (WMI.wcache w, WMI.charts w) in
      (WMI.with_base (logFailures failures (WMI.base w))
         (WMI.with_charts cs (WMI.with_cache k w)),
       (Some (snapshot n), None))
    end
  end.

(** One collection cycle as the host sees it: [WMI.Collect] over the
    collection step. *)
Definition cycle (r : Response) (w : WMI.WMI) : WMI.WMI * Go.map Z :=
  WMI.Collect (collect r) w.

(** Consecutive cycles. *)
Fixpoint run (rs : list Response) (w : WMI.WMI) : WMI.WMI :=
  match rs with
  | [] => w
  | r :: rest => run rest (fst (cycle r w))
  end.

(** The entities whose materialization failed in a cycle, and over
    consecutive cycles. *)
Definition failuresOf (r : Response) (w : WMI.WMI)
  : list (EntityClass * string) :=
  match fetch r with
  | inl _ => []
  | inr body =>
    match normalize fams body with
    | inl _ => []
    | inr n =>
      snd (syncAll tmpl fams (seen n) (WMI.wcache w, WMI.charts w))
    end
  end.

Fixpoint runFailures (rs : list Response) (w : WMI.WMI)
  : list (EntityClass * string) :=
  match rs with
  | [] => []
  | r :: rest => failuresOf r w ++ runFailures rest (fst (cycle r w))
  end.

(** The entities a response lets the Normalizer see (none when the
    cycle fails), and the seen-set of one class. *)
Definition seenEntities (r : Response) : list (EntityClass * string) :=
  match fetch r with
  | inl _ => []
  | inr body =>
    match normalize fams body with
    | inl _ => []
    | inr n => seen n
    end
  end.

Definition seenOf (c : EntityClass) (r : Response) : list string :=
  seenIDs c (seenEntities r).

End Tables.

End Controller.

(** ** Tables and documents to run the engine on

    Small tables in the shape of the module's own ones, with the
    metric_ids of the v0.20.0 test data, used to run the engine on
    concrete cycles. *)

Module Fixture.

Import Normalizer Controller.

Definition diskFree : format := [Lit "logical_disk_"; Arg; Lit "_free_space"].
Definition diskUsed : format := [Lit "logical_disk_"; Arg; Lit "_used_space"].
Definition dbActive : format :=
  [Lit "mssql_db_"; Arg; Lit "_instance_"; Arg; Lit "_active_transactions"].

Definition diskChartsTmpl : list ChartTmpl :=
  [ {| tID := [Lit "logical_disk_"; Arg; Lit "_utilization"];
       tDims := [diskFree; diskUsed]; tVars := [] |} ].

Definition mssqlDatabaseChartsTmpl : list ChartTmpl :=
  [ {| tID := [Lit "mssql_db_"; Arg; Lit "_instance_"; Arg;
               Lit "_active_transactions"];
       tDims := [dbActive]; tVars := [] |} ].

Definition tmpl (c : EntityClass) : list ChartTmpl :=
  match c with
  | volume => diskChartsTmpl
  | db_instance_database_pair => mssqlDatabaseChartsTmpl
  | _ => []
  end.

Definition fams : list Family :=
  [ {| fname := "windows_logical_disk_free_bytes";
       fscope := PerEntity volume "volume"; fmetric := diskFree; fmult := 1 |};
    {| fname := "windows_logical_disk_used_bytes";
       fscope := PerEntity volume "volume"; fmetric := diskUsed; fmult := 1 |};
    {| fname := "windows_mssql_databases_active_transactions";
       fscope := PerDatabase "mssql_instance" "database";
       fmetric := dbActive; fmult := 1 |};
    {| fname := "windows_os_processes";
       fscope := Global; fmetric := [Lit "os_processes"]; fmult := 1 |} ].

Definition diskSample (name disk : string) (v : Z) : Sample :=
  {| sname := name; slabels := [("volume", disk)]; svalue := inject_Z v |}.

Definition dbSample (instance db : string) (v : Z) : Sample :=
  {| sname := "windows_mssql_databases_active_transactions";
     slabels := [("mssql_instance", instance); ("database", db)];
     svalue := inject_Z v |}.

Definition osProcesses : Sample :=
  {| sname := "windows_os_processes"; slabels := []; svalue := inject_Z 152 |}.

Definition disk (d : string) : list Sample :=
  [ diskSample "windows_logical_disk_free_bytes" d 43636490240;
    diskSample "windows_logical_disk_used_bytes" d 24301797376 ].

Definition ok (doc : list Sample) : Response := Reply 200 (Exposition doc).

End Fixture.

(** ** Predicates of the statements *)

(** A snapshot that counts for the host: an allocated, non-empty map. *)
Definition nonEmptySnapshot (r : Go.map Z) : Prop :=
  ∃ m : gmap string Z, r = Some m ∧ m ≠ ∅.

(** The two readings a module offers of one cycle agree: [Check] is true
    exactly when [Collect] hands over a non-empty snapshot, with the same
    effect on the module; [Collect] never hands over an allocated empty
    map, and a collection step without metrics yields nil. *)
Definition healthContract {M : Type}
    (Check : M -> M * bool) (Collect : M -> M * Go.map Z)
    (collect : M -> M * (Go.map Z * option error)) (m : M) : Prop :=
  (snd (Check m) = true ↔ nonEmptySnapshot (snd (Collect m)))
  ∧ fst (Check m) = fst (Collect m)
  ∧ snd (Collect m) ≠ Some ∅
  ∧ (Go.len (fst (snd (collect m))) = 0%nat -> snd (Collect m) = None).

(** The registry and the Chart Set, the state the synchronizer works on. *)
Definition engine (w : WMI.WMI) : WMI.cache * Charts :=
  (WMI.wcache w, WMI.charts w).

(** [st'] extends [st]: every materialized entity stays so, every key of
    a registry stays, and the Chart Set only grows at its end. *)
Definition extends (st st' : WMI.cache * Charts) : Prop :=
  (∀ c id, WMI.known (WMI.registry c (fst st)) id = true ->
           WMI.known (WMI.registry c (fst st')) id = true)
  ∧ (∀ c, dom (WMI.registry c (fst st)) ⊆ dom (WMI.registry c (fst st')))
  ∧ snd st `prefix_of` snd st'.

(** An entity on which [sync] has nothing left to do: it is materialized,
    or its charts are refused without any being added. *)
Definition settled (tmpl : EntityClass -> list ChartTmpl)
    (fams : list Normalizer.Family) (c : EntityClass) (id : string)
    (st : WMI.cache * Charts) : Prop :=
  WMI.known (WMI.registry c (fst st)) id = true
  ∨ Synchronizer.materialize tmpl fams c id (snd st) = (snd st, false).


(** A module whose registries are all empty, as [New] leaves them. *)
Definition emptyRegistry (w : WMI.WMI) : Prop :=
  ∀ c, WMI.registry c (WMI.wcache w) = ∅.

(** Every dimension and variable id of the chart is a key of the
    snapshot. *)
Definition covered (mx : gmap string Z) (ch : Chart) : Prop :=
  ∀ d, d ∈ Dims ch ++ Vars ch -> is_Some (mx !! d).

(** The Sample Source or the Normalizer fails on the response. *)
Definition cycleFails (fams : list Normalizer.Family) (r : Controller.Response)
  : Prop :=
  match Controller.fetch r with
  | inl _ => True
  | inr body =>
    match Normalizer.normalize fams body with
    | inl _ => True
    | inr _ => False
    end
  end.

(** The seen-set of a class in one cycle, as a set. *)
Definition seenSet (fams : list Normalizer.Family) (c : EntityClass)
    (r : Controller.Response) : gset string :=
  list_to_set (Controller.seenOf fams c r).

(** The metric_ids a document makes the Normalizer emit. *)
Definition emitted (fams : list Normalizer.Family)
    (doc : list Normalizer.Sample) : list string :=
  omap (fun s => Normalizer.metricID <$> Normalizer.recognize fams s) doc.

(** The document carries, for every entity it mentions, every series of
    the entity's class. *)
Definition complete (fams : list Normalizer.Family)
    (doc : list Normalizer.Sample) : bool :=
  forallb
    (fun s =>
       match Normalizer.recognize fams s with
       | Some r =>
         match Normalizer.rentity r with
         | Some (c, _) =>
           forallb
             (fun F =>
                if decide (Normalizer.classOf (Normalizer.fscope F) = Some c)
                then bool_decide
                       (Sprintf (Normalizer.fmetric F) (Normalizer.rargs r)
                        ∈ emitted fams doc)
                else true)
             fams
         | None => true
         end
       | None => true
       end)
    doc.

(** No identifier that enters a composite key contains the separator. *)
Definition separatorFree (fams : list Normalizer.Family)
    (doc : list Normalizer.Sample) : bool :=
  forallb
    (fun s =>
       match Normalizer.recognize fams s with
       | Some r =>
         match Normalizer.rentity r with
         | Some (db_instance_database_pair, _) =>
           forallb (fun a => negb (EntityID.has_separator a))
             (Normalizer.rargs r)
         | _ => true
         end
       | None => true
       end)
    doc.



(** The check of the test [ensureCollectedHasAllChartsDimsVarsIDs]: for
    every chart of the Chart Set, every [dim.ID] and every [v.ID] is a key
    of the collected map. *)
Definition ensureCollectedHasAllChartsDimsVarsIDs (cs : Charts)
    (mx : gmap string Z) : Prop :=
  ∀ chart, chart ∈ cs ->
    (∀ dim, dim ∈ Dims chart -> is_Some (mx !! dim))
    ∧ (∀ v, v ∈ Vars chart -> is_Some (mx !! v)).

(** The inner loop of the test [ensureChartsDimsCreated]: every chart of
    the template, its id instantiated by [fmt.Sprintf(chart.ID, args...)],
    is in the Chart Set. *)
Definition hasTemplateCharts (cs : Charts) (tmplc : list ChartTmpl)
    (args : list string) : Prop :=
  ∀ chart, chart ∈ tmplc -> Has cs (Sprintf (tID chart) args) = true.

(** The loops of the test [ensureChartsDimsCreated] over the entity maps
    of the cache (cores, volumes, nics, thermal zones, services, websites,
    mssql instances, instance:database pairs, cert templates and
    collectors); for a key of [mssqlDBs] the test asserts that
    [strings.Split(instanceDB, ":")] has length 2 and, with the two
    components [instance] and [db], looks the charts up. *)
Definition entityChartsCreated (tmpl : EntityClass -> list ChartTmpl)
    (w : WMI.WMI) : Prop :=
  let cs := WMI.charts w in
  let k := WMI.wcache w in
  (∀ id, id ∈ dom (WMI.cores k) -> hasTemplateCharts cs (tmpl core) [id])
  ∧ (∀ id, id ∈ dom (WMI.volumes k) -> hasTemplateCharts cs (tmpl volume) [id])
  ∧ (∀ id, id ∈ dom (WMI.nics k) -> hasTemplateCharts cs (tmpl nic) [id])
  ∧ (∀ id, id ∈ dom (WMI.thermalZones k) ->
           hasTemplateCharts cs (tmpl thermal_zone) [id])
  ∧ (∀ id, id ∈ dom (WMI.services k) -> hasTemplateCharts cs (tmpl service) [id])
  ∧ (∀ id, id ∈ dom (WMI.iis k) -> hasTemplateCharts cs (tmpl website) [id])
  ∧ (∀ id, id ∈ dom (WMI.mssqlInstances k) ->
           hasTemplateCharts cs (tmpl db_instance) [id])
  ∧ (∀ instanceDB, instanceDB ∈ dom (WMI.mssqlDBs k) ->
       ∃ instance db,
         Split instanceDB ":"%char = [instance; db]
         ∧ hasTemplateCharts cs (tmpl db_instance_database_pair) [db; instance])
  ∧ (∀ id, id ∈ dom (WMI.adcs k) ->
           hasTemplateCharts cs (tmpl cert_template) [id])
  ∧ (∀ id, id ∈ dom (WMI.collectors k) ->
           hasTemplateCharts cs (tmpl sub_collector) [id]).

(** ** The readings of the module tests *)

Module Harness.

(** [strings.HasPrefix(s, prefix)]. *)
Fixpoint HasPrefix (s prefix : string) : bool :=
  match prefix with
  | EmptyString => true
  | String c prefix' =>
    match s with
    | EmptyString => false
    | String d s' => if decide (c = d) then HasPrefix s' prefix' else false
    end
  end.

(** How often a character occurs in a string. *)
Fixpoint occurrences (sep : ascii) (s : string) : nat :=
  match s with
  | EmptyString => 0%nat
  | String ch s' =>
    if decide (ch = sep) then S (occurrences sep s') else occurrences sep s'
  end.

(** The number of [%s] verbs of a format. *)
Fixpoint verbs (f : format) : nat :=
  match f with
  | [] => 0%nat
  | Lit _ :: f' => verbs f'
  | Arg :: f' => S (verbs f')
  end.

(** [TestWMI_Collect] and [TestCassandra_Collect]: when neither map is
    nil, [mx["system_up_time"] = test.wantCollected["system_up_time"]]
    writes into the collected map the expected value, or zero when the
    expected map has no such key. *)
Definition overwriteUpTime (wantCollected mx : Go.map Z) : Go.map Z :=
  match mx, wantCollected with
  | Some m, Some want =>
    Some (<["system_up_time" := default 0 (want !! "system_up_time")]> m)
  | _, _ => mx
  end.

(** [assert.Equal(t, test.wantCollected, mx)] on the overwritten map; a
    nil map and an allocated empty map are not equal. *)
Definition collectedAsWanted (wantCollected mx : Go.map Z) : Prop :=
  wantCollected = overwriteUpTime wantCollected mx.

(** [TestWMI_Collect]: for a non-empty expectation, [testCharts] runs
    [ensureCollectedHasAllChartsDimsVarsIDs] on the overwritten map (a
    lookup in a nil map finds nothing). *)
Definition coverageAsTested (cs : Charts) (wantCollected mx : Go.map Z)
  : Prop :=
  (0 < Go.len wantCollected)%nat ->
  ensureCollectedHasAllChartsDimsVarsIDs cs
    (default ∅ (overwriteUpTime wantCollected mx)).

(** The search of [ensureChartsDimsCreated] for a dimension of a
    process: some [dim.ID] of the chart starts with ["process_"+proc]. *)
Definition hasProcessDim (chart : Chart) (proc : string) : bool :=
  existsb (fun dim => HasPrefix dim ("process_" +:+ proc)) (Dims chart).

(** The last loop of [ensureChartsDimsCreated]: every processes chart
    that the Chart Set holds has a dimension for every key of
    [cache.processes]; a chart the Chart Set does not hold is skipped. *)
Definition processesDimsCreated (processesCharts : Charts) (w : WMI.WMI)
  : Prop :=
  ∀ chart, chart ∈ processesCharts ->
    match Get (WMI.charts w) (ID chart) with
    | None => True
    | Some found =>
      ∀ proc, proc ∈ dom (WMI.processes (WMI.wcache w)) ->
              hasProcessDim found proc = true
    end.

End Harness.

(** * Properties *)

(** ** The module methods *)

Lemma len_zero_iff (r : Go.map Z) :
  Go.len r = 0%nat ↔ r = None ∨ r = Some ∅.
Proof.
  destruct r as [m|]; simpl.
  - rewrite map_size_empty_iff. split.
    + intros ->. by right.
    + intros [?|?]; congruence.
  - split; [by left | done].
Qed.

Lemma len_pos_iff (r : Go.map Z) :
  (0 < Go.len r)%nat ↔ nonEmptySnapshot r.
Proof.
  unfold nonEmptySnapshot. destruct r as [m|]; simpl.
  - split.
    + intros Hpos. exists m. split; [done|]. intros ->.
      rewrite map_size_empty in Hpos. lia.
    + intros (m' & [= <-] & Hne).
      destruct (decide (size m = 0%nat)) as [Hz|Hz]; [|lia].
      by apply map_size_empty_iff in Hz.
  - split; [lia|]. by intros (m' & ? & _).
Qed.

(** The shape shared by the three [Collect] methods: the map of the
    collection step, or nil when it is empty. *)
Lemma collect_shape {M : Type} (w : M) (r : Go.map Z) :
  let out := if decide (Go.len r = 0%nat) then (w, None) else (w, r) in
  fst out = w
  ∧ (bool_decide (0 < Go.len (snd out))%nat = true ↔ nonEmptySnapshot (snd out))
  ∧ snd out ≠ Some ∅
  ∧ (Go.len r = 0%nat -> snd out = None).
Proof.
  cbv zeta. case_decide as Hz; cbn [fst snd].
  - split; [done|]. split; [|split; [done|done]].
    rewrite bool_decide_eq_true. cbn [Go.len].
    split; [lia|]. by intros (m & ? & _).
  - split; [done|]. split; [|split].
    + rewrite bool_decide_eq_true. apply len_pos_iff.
    + intros ->. by apply Hz.
    + intros Hz'. by destruct Hz.
Qed.

Ltac health_contract collect m :=
  destruct (collect m) as [m' [mx err]]; simpl;
  match goal with
  | |- context [decide (Go.len mx = 0%nat)] =>
    match goal with
    | |- context [if decide _ then (?w, None) else _] =>
      pose proof (collect_shape w mx) as Hshape; simpl in Hshape;
      destruct (decide (Go.len mx = 0%nat)); simpl in *; tauto
    end
  end.

Lemma WMI_healthContract collect w :
  healthContract (WMI.Check collect) (WMI.Collect collect) collect w.
Proof.
  unfold healthContract, WMI.Check, WMI.Collect. health_contract collect w.
Qed.

Lemma NTPd_healthContract {ntpConn : Type} collect (n : NTPd.NTPd ntpConn) :
  healthContract (NTPd.Check collect) (NTPd.Collect collect) collect n.
Proof.
  unfold healthContract, NTPd.Check, NTPd.Collect. health_contract collect n.
Qed.

Lemma NvidiaSMI_healthContract {nvidiaSMI : Type} collect
    (nv : NvidiaSMI.NvidiaSMI nvidiaSMI) :
  healthContract (NvidiaSMI.Check collect) (NvidiaSMI.Collect collect) collect nv.
Proof.
  unfold healthContract, NvidiaSMI.Check, NvidiaSMI.Collect.
  health_contract collect nv.
Qed.

(** C5: for every module (WMI, NTPd, NvidiaSMI), [Check()] is true if and
    only if [Collect()] returns a non-empty [metric_id -> int64] mapping,
    and an empty cycle yields nil, never an allocated empty map. *)
Theorem check_iff_collect_nonempty :
  (∀ collect w,
      healthContract (WMI.Check collect) (WMI.Collect collect) collect w)
  ∧ (∀ (ntpConn : Type) collect (n : NTPd.NTPd ntpConn),
      healthContract (NTPd.Check collect) (NTPd.Collect collect) collect n)
  ∧ (∀ (nvidiaSMI : Type) collect (nv : NvidiaSMI.NvidiaSMI nvidiaSMI),
      healthContract (NvidiaSMI.Check collect) (NvidiaSMI.Collect collect)
        collect nv).
Proof.
  split; [|split].
  - apply WMI_healthContract.
  - intros. apply NTPd_healthContract.
  - intros. apply NvidiaSMI_healthContract.
Qed.

(** C9: when the collection step returns both an error and a non-empty
    metrics map, the public [Collect()] of each module still returns that
    map; the error only reaches the log. *)
Theorem collect_returns_map_with_logged_error :
  (∀ collect w w' (m : gmap string Z) e,
      collect w = (w', (Some m, Some e)) -> m ≠ ∅ ->
      WMI.Collect collect w
      = (WMI.with_base (Error e (WMI.base w')) w', Some m))
  ∧ (∀ (ntpConn : Type) collect (n n' : NTPd.NTPd ntpConn)
       (m : gmap string Z) e,
      collect n = (n', (Some m, Some e)) -> m ≠ ∅ ->
      NTPd.Collect collect n
      = (NTPd.with_base (Error e (NTPd.base n')) n', Some m))
  ∧ (∀ (nvidiaSMI : Type) collect (nv nv' : NvidiaSMI.NvidiaSMI nvidiaSMI)
       (m : gmap string Z) e,
      collect nv = (nv', (Some m, Some e)) -> m ≠ ∅ ->
      NvidiaSMI.Collect collect nv
      = (NvidiaSMI.with_base (Error e (NvidiaSMI.base nv')) nv', Some m)).
Proof.
  split; [|split].
  - intros collect w w' m e Hc Hne. unfold WMI.Collect. rewrite Hc.
    case_decide as Hz; [|done].
    apply len_zero_iff in Hz as [?|[= ->]]; done.
  - intros ntpConn collect n n' m e Hc Hne. unfold NTPd.Collect. rewrite Hc.
    case_decide as Hz; [|done].
    apply len_zero_iff in Hz as [?|[= ->]]; done.
  - intros nvidiaSMI collect nv nv' m e Hc Hne.
    unfold NvidiaSMI.Collect. rewrite Hc.
    case_decide as Hz; [|done].
    apply len_zero_iff in Hz as [?|[= ->]]; done.
Qed.

(** A collection step that reports an error next to one metric. *)
Lemma collect_returns_map_with_logged_error_witness :
  WMI.Collect
    (fun w => (w, (Some {["os_processes" := 152]}, Some (ExternalError "partial"))))
    WMI.New
  = (WMI.with_base (Error (ExternalError "partial") (WMI.base WMI.New)) WMI.New,
     Some {["os_processes" := 152]}).
Proof.
  apply (proj1 collect_returns_map_with_logged_error
           (fun w => (w, (Some {["os_processes" := 152]},
                          Some (ExternalError "partial"))))
           WMI.New WMI.New {["os_processes" := 152]} (ExternalError "partial")).
  - reflexivity.
  - apply insert_non_empty.
Defined.

(** C10: [Cleanup()] on a freshly constructed, never initialised module
    does not fail: the nil HTTP client of WMI and the nil connection of
    NTPd are guarded before the call that would dereference them, and
    NTPd leaves its client nil, so a repeated [Cleanup()] is safe too. *)
Theorem cleanup_is_guarded :
  WMI.httpClient WMI.New = None
  ∧ WMI.CloseIdleConnections None = Go.Panics
  ∧ (∀ w, WMI.Cleanup w = Go.Returns w)
  ∧ (∀ (ntpConn : Type) (close : ntpConn -> unit) systemCharts newNTPClient,
      NTPd.client (NTPd.New systemCharts newNTPClient) = None
      ∧ NTPd.call_close close None = Go.Panics
      ∧ NTPd.Cleanup close (NTPd.New systemCharts newNTPClient)
        = Go.Returns (NTPd.New systemCharts newNTPClient))
  ∧ (∀ (ntpConn : Type) (close : ntpConn -> unit) (n : NTPd.NTPd ntpConn),
      ∃ n', NTPd.Cleanup close n = Go.Returns n'
            ∧ NTPd.client n' = None
            ∧ NTPd.Cleanup close n' = Go.Returns n').
Proof.
  split; [done|]. split; [done|]. split; [|split].
  - intros w. unfold WMI.Cleanup. by destruct (WMI.httpClient w).
  - done.
  - intros ntpConn close n. unfold NTPd.Cleanup.
    destruct (NTPd.client n) as [c|] eqn:Hc; simpl.
    + exists (NTPd.with_client None n). done.
    + exists n. by rewrite Hc.
Qed.

(** C8 as amended: [Init()] returns false when the WMI module's URL is
    unset, as in the default configuration of [New()], and when the NTPd
    module's address is empty; for NTPd it returns true when the address
    is set, and for WMI it returns true exactly when the URL is set and
    the HTTP client and then the Prometheus client are built without
    error. *)
Theorem init_requires_connection_parameter :
  (∀ initHTTPClient initPrometheusClient w,
      WMI.URL (WMI.config w) = "" ->
      snd (WMI.Init initHTTPClient initPrometheusClient w) = false)
  ∧ (∀ initHTTPClient initPrometheusClient,
      snd (WMI.Init initHTTPClient initPrometheusClient WMI.New) = false)
  ∧ (∀ initHTTPClient initPrometheusClient w,
      snd (WMI.Init initHTTPClient initPrometheusClient w) = true
      ↔ WMI.URL (WMI.config w) ≠ ""
        ∧ ∃ c p, initHTTPClient w = inr c
                 ∧ initPrometheusClient (WMI.with_httpClient (Some c) w) c
                   = inr p)
  ∧ (∀ (ntpConn : Type) (n : NTPd.NTPd ntpConn),
      (NTPd.Address (NTPd.config n) = "" -> snd (NTPd.Init n) = false)
      ∧ (NTPd.Address (NTPd.config n) ≠ "" -> NTPd.Init n = (n, true))).
Proof.
  assert (Hempty : ∀ ih ip w, WMI.URL (WMI.config w) = "" ->
                              snd (WMI.Init ih ip w) = false).
  { intros ih ip w Hurl. unfold WMI.Init, WMI.validateConfig.
    rewrite Hurl. by rewrite decide_True. }
  split; [exact Hempty|]. split; [|split].
  - intros ih ip. by apply Hempty.
  - intros ih ip w. unfold WMI.Init, WMI.validateConfig.
    case_decide as Hurl; simpl.
    + split; [done|]. by intros [? _].
    + destruct (ih w) as [err|c] eqn:Hc; simpl.
      * split; [done|]. by intros (_ & c & p & ? & _).
      * destruct (ip (WMI.with_httpClient (Some c) w) c) as [err|p] eqn:Hp;
          simpl.
        -- split; [done|]. intros (_ & c' & p' & [= <-] & Hp').
           rewrite Hp in Hp'. done.
        -- split; [|done]. intros _. split; [done|]. by exists c, p.
  - intros ntpConn n. unfold NTPd.Init. split; intros Ha.
    + by rewrite decide_True.
    + by rewrite decide_False.
Qed.

(** A configuration with the URL of the module's own test. *)
Lemma init_requires_connection_parameter_witness :
  snd (WMI.Init (fun w => inr (WMI.HTTPClientFor (WMI.Timeout (WMI.config w))))
         (fun w c => inr (WMI.PrometheusFor c (WMI.URL (WMI.config w))))
         (WMI.with_config
            {| WMI.URL := "http://127.0.0.1:9182/metrics"; WMI.Timeout := 0 |}
            WMI.New))
  = true.
Proof.
  apply (proj1 (proj2 (proj2 init_requires_connection_parameter))).
  split; [discriminate|]. eexists _, _. split; reflexivity.
Defined.

(** C8 as stated fails: with the URL of the module's own test set,
    [Init()] returns false when [initHTTPClient] returns an error, and
    when [initPrometheusClient] does. *)
Lemma init_fails_with_url_set :
  let w := WMI.with_config
             {| WMI.URL := "http://127.0.0.1:9182/metrics"; WMI.Timeout := 0 |}
             WMI.New in
  WMI.URL (WMI.config w) = "http://127.0.0.1:9182/metrics"
  ∧ snd (WMI.Init
           (fun _ => inl (ExternalError "error on creating http client"))
           (fun w c => inr (WMI.PrometheusFor c (WMI.URL (WMI.config w))))
           w)
    = false
  ∧ snd (WMI.Init
           (fun w => inr (WMI.HTTPClientFor (WMI.Timeout (WMI.config w))))
           (fun _ _ =>
              inl (ExternalError "error on creating prometheus client"))
           w)
    = false.
Proof.
  cbv zeta. split; [reflexivity|]. split; reflexivity.
Qed.

Lemma elem_of_all_classes (c : EntityClass) : c ∈ all_classes.
Proof.
  destruct c; unfold all_classes;
    repeat first [apply list_elem_of_here | apply list_elem_of_further].
Qed.

(** ** The Chart Set *)

Lemma Has_spec (cs : Charts) (id : string) :
  Has cs id = true ↔ id ∈ ID <$> cs.
Proof.
  unfold Has. induction cs as [|ch cs IH]; simpl.
  - split; [done|]. by intros ?%elem_of_nil.
  - case_decide as Hid.
    + split; [|done]. intros _. subst. apply list_elem_of_here.
    + rewrite IH, elem_of_cons. split; [by right|].
      intros [Heq|Hin]; [by destruct Hid|done].
Qed.

Lemma Has_elem (cs : Charts) (ch : Chart) :
  ch ∈ cs -> Has cs (ID ch) = true.
Proof. intros Hin. apply Has_spec. by apply list_elem_of_fmap_2. Qed.

Lemma Has_false (cs : Charts) (id : string) :
  Has cs id = false ↔ id ∉ ID <$> cs.
Proof.
  rewrite <- Has_spec. destruct (Has cs id); split; done.
Qed.

Lemma Has_prefix (cs cs' : Charts) (id : string) :
  cs `prefix_of` cs' -> Has cs id = true -> Has cs' id = true.
Proof.
  intros [k ->]. rewrite !Has_spec, fmap_app, elem_of_app. by left.
Qed.

Section SynchronizerFacts.

Import Normalizer Synchronizer.

Lemma Add_Some ch cs cs' :
  Add ch cs = Some cs' -> cs' = cs ++ [ch] ∧ ID ch ∉ ID <$> cs.
Proof.
  unfold Add. destruct (Has cs (ID ch)) eqn:HH; [done|].
  intros [= <-]. split; [done|]. by apply Has_false.
Qed.

Lemma Add_None ch cs : Add ch cs = None ↔ Has cs (ID ch) = true.
Proof. unfold Add. by destruct (Has cs (ID ch)). Qed.

Lemma addCharts_prefix new cs : cs `prefix_of` fst (addCharts new cs).
Proof.
  revert cs. induction new as [|ch new IH]; intros cs; simpl; [done|].
  destruct (Add ch cs) as [cs'|] eqn:HA; simpl; [|done].
  apply Add_Some in HA as [-> _].
  etrans; [|apply IH]. by apply prefix_app_r.
Qed.

Lemma addCharts_origin new cs ch :
  ch ∈ fst (addCharts new cs) -> ch ∈ cs ∨ ch ∈ new.
Proof.
  revert cs. induction new as [|c0 new IH]; intros cs; simpl; [by left|].
  destruct (Add c0 cs) as [cs'|] eqn:HA; simpl; [|by left].
  apply Add_Some in HA as [-> _]. intros Hin.
  destruct (IH _ Hin) as [Hc|Hn].
  - apply elem_of_app in Hc as [?|Hs]; [by left|].
    apply list_elem_of_singleton in Hs as ->. right. apply list_elem_of_here.
  - right. by apply list_elem_of_further.
Qed.


Lemma addCharts_NoDup new cs :
  NoDup (ID <$> cs) -> NoDup (ID <$> fst (addCharts new cs)).
Proof.
  revert cs. induction new as [|c0 new IH]; intros cs; simpl; [done|].
  destruct (Add c0 cs) as [cs'|] eqn:HA; simpl; [|done].
  apply Add_Some in HA as [-> Hfresh]. intros Hnd. apply IH.
  rewrite fmap_app. apply NoDup_app. split; [done|]. split.
  - intros x Hx Hs. apply list_elem_of_singleton in Hs as ->. done.
  - apply NoDup_singleton.
Qed.

(** A refused attempt stays refused on every larger Chart Set, and adds
    nothing there. *)
Lemma addCharts_blocked new cs cs' cs'' :
  addCharts new cs = (cs', false) ->
  cs' `prefix_of` cs'' ->
  addCharts new cs'' = (cs'', false).
Proof.
  destruct new as [|c0 new]; simpl; [done|].
  destruct (Add c0 cs) as [cs1|] eqn:HA.
  - apply Add_Some in HA as [-> _]. intros Hrest Hpre.
    assert (Has cs'' (ID c0) = true) as HH.
    { eapply Has_prefix; [exact Hpre|].
      eapply Has_prefix.
      - pose proof (addCharts_prefix new (cs ++ [c0])) as Hp.
        rewrite Hrest in Hp. exact Hp.
      - rewrite Has_spec, fmap_app, elem_of_app. right.
        apply list_elem_of_here. }
    apply Add_None in HH. by rewrite HH.
  - intros [= <-] Hpre. apply Add_None in HA.
    assert (Has cs'' (ID c0) = true) as HH by (by eapply Has_prefix).
    apply Add_None in HH. by rewrite HH.
Qed.

(** *** The registries *)

Lemma registry_with_registry c c' m k :
  WMI.registry c' (WMI.with_registry c m k)
  = if decide (c = c') then m else WMI.registry c' k.
Proof. destruct c, c'; reflexivity. Qed.

Lemma registry_with_registry_eq c m k :
  WMI.registry c (WMI.with_registry c m k) = m.
Proof. rewrite registry_with_registry. by rewrite decide_True. Qed.

Lemma known_insert m id id' :
  WMI.known m id' = true -> WMI.known (<[id := true]> m) id' = true.
Proof.
  unfold WMI.known. destruct (decide (id = id')) as [->|Hne].
  - by rewrite lookup_insert_eq.
  - by rewrite lookup_insert_ne.
Qed.

Lemma known_dom m id : WMI.known m id = true -> id ∈ dom m.
Proof.
  unfold WMI.known. rewrite elem_of_dom.
  destruct (m !! id); [by eexists|done].
Qed.

(** *** One entity *)

Variable tmpl : EntityClass -> list ChartTmpl.
Variable fams : list Family.

Local Abbreviation materialize := (materialize tmpl fams).
Local Abbreviation instantiate := (instantiate tmpl fams).
Local Abbreviation syncEntity := (syncEntity tmpl fams).
Local Abbreviation sync := (sync tmpl fams).
Local Abbreviation syncClasses := (syncClasses tmpl fams).
Local Abbreviation syncAll := (syncAll tmpl fams).

Lemma materialize_prefix c id cs : cs `prefix_of` fst (materialize c id cs).
Proof.
  unfold Synchronizer.materialize. destruct (instantiate c id); simpl; [|done].
  apply addCharts_prefix.
Qed.

Lemma extends_refl st : extends st st.
Proof. unfold extends. split; [done|]. split; done. Qed.

Lemma extends_trans st1 st2 st3 :
  extends st1 st2 -> extends st2 st3 -> extends st1 st3.
Proof.
  intros (Hk1 & Hd1 & Hp1) (Hk2 & Hd2 & Hp2). split; [|split].
  - intros c id H. by apply Hk2, Hk1.
  - intros c. etrans; [apply Hd1|apply Hd2].
  - by etrans.
Qed.

(** What [syncEntity] does, case by case. *)
Lemma syncEntity_cases c id k cs :
  (WMI.known (WMI.registry c k) id = true
   ∧ syncEntity c id (k, cs) = ((k, cs), []))
  ∨ (WMI.known (WMI.registry c k) id = false
     ∧ snd (materialize c id cs) = true
     ∧ syncEntity c id (k, cs)
       = ((WMI.with_registry c (<[id := true]> (WMI.registry c k)) k,
           fst (materialize c id cs)), []))
  ∨ (WMI.known (WMI.registry c k) id = false
     ∧ snd (materialize c id cs) = false
     ∧ syncEntity c id (k, cs) = ((k, fst (materialize c id cs)), [(c, id)])).
Proof.
  unfold Synchronizer.syncEntity.
  destruct (WMI.known (WMI.registry c k) id) eqn:Hk; [by left|]. right.
  destruct (materialize c id cs) as [cs' ok]; simpl.
  destruct ok; [left|right]; done.
Qed.

Lemma syncEntity_extends c id st : extends st (fst (syncEntity c id st)).
Proof.
  destruct st as [k cs].
  destruct (syncEntity_cases c id k cs)
    as [(_ & ->)|[(_ & _ & ->)|(_ & _ & ->)]]; simpl.
  - apply extends_refl.
  - split; [|split]; simpl.
    + intros c' id' H. rewrite registry_with_registry.
      case_decide as Hc; [subst c'|done]. by apply known_insert.
    + intros c'. rewrite registry_with_registry.
      case_decide as Hc; [subst c'|done]. rewrite dom_insert. set_solver.
    + apply materialize_prefix.
  - split; [done|]. split; [done|]. apply materialize_prefix.
Qed.

Lemma settled_extends c id st st' :
  settled tmpl fams c id st -> extends st st' -> settled tmpl fams c id st'.
Proof.
  intros [Hk|Hb] (Hkn & _ & Hpre); [left; by apply Hkn|]. right.
  unfold Synchronizer.materialize in *.
  destruct (instantiate c id) as [chs|]; [|done].
  eapply addCharts_blocked; [exact Hb|exact Hpre].
Qed.

Lemma syncEntity_settled c id st :
  settled tmpl fams c id (fst (syncEntity c id st)).
Proof.
  destruct st as [k cs].
  destruct (syncEntity_cases c id k cs)
    as [(Hk & ->)|[(_ & _ & ->)|(_ & Hf & ->)]]; simpl.
  - by left.
  - left. simpl. rewrite registry_with_registry_eq.
    unfold WMI.known. by rewrite lookup_insert_eq.
  - right. simpl. unfold Synchronizer.materialize in *.
    destruct (instantiate c id) as [chs|]; simpl in *; [|done].
    destruct (addCharts chs cs) as [cs' ok] eqn:HA. simpl in *. subst ok.
    eapply addCharts_blocked; [exact HA|done].
Qed.

Lemma syncEntity_noop c id st :
  settled tmpl fams c id st -> fst (syncEntity c id st) = st.
Proof.
  destruct st as [k cs]. intros [Hk|Hb]; cbn [fst snd] in *.
  - destruct (syncEntity_cases c id k cs)
      as [(_ & ->)|[(Hk' & _)|(Hk' & _)]]; [done|congruence|congruence].
  - destruct (syncEntity_cases c id k cs)
      as [(_ & ->)|[(_ & Hok & _)|(_ & _ & ->)]]; [done| |].
    + rewrite Hb in Hok. done.
    + simpl. by rewrite Hb.
Qed.

(** *** A seen-set, and all of them *)

Lemma sync_cons c id ids st :
  fst (sync c (id :: ids) st) = fst (sync c ids (fst (syncEntity c id st)))
  ∧ snd (sync c (id :: ids) st)
    = snd (syncEntity c id st) ++ snd (sync c ids (fst (syncEntity c id st))).
Proof.
  cbn [Synchronizer.sync]. destruct (syncEntity c id st) as [st1 f1].
  cbn [fst snd]. destruct (sync c ids st1) as [st2 f2]. done.
Qed.

Lemma syncClasses_cons c cls seen st :
  fst (syncClasses (c :: cls) seen st)
  = fst (syncClasses cls seen (fst (sync c (seenIDs c seen) st)))
  ∧ snd (syncClasses (c :: cls) seen st)
    = snd (sync c (seenIDs c seen) st)
      ++ snd (syncClasses cls seen (fst (sync c (seenIDs c seen) st))).
Proof.
  cbn [Synchronizer.syncClasses].
  destruct (sync c (seenIDs c seen) st) as [st1 f1].
  cbn [fst snd]. destruct (syncClasses cls seen st1) as [st2 f2]. done.
Qed.

Lemma sync_extends c ids st : extends st (fst (sync c ids st)).
Proof.
  revert st. induction ids as [|id ids IH]; intros st.
  - apply extends_refl.
  - rewrite (proj1 (sync_cons c id ids st)).
    eapply extends_trans; [apply syncEntity_extends|apply IH].
Qed.

Lemma syncClasses_extends cls seen st :
  extends st (fst (syncClasses cls seen st)).
Proof.
  revert st. induction cls as [|c cls IH]; intros st.
  - apply extends_refl.
  - rewrite (proj1 (syncClasses_cons c cls seen st)).
    eapply extends_trans; [apply sync_extends|apply IH].
Qed.

Lemma sync_settled c ids st id :
  id ∈ ids -> settled tmpl fams c id (fst (sync c ids st)).
Proof.
  revert st. induction ids as [|id0 ids IH]; intros st Hin.
  - by apply elem_of_nil in Hin.
  - rewrite (proj1 (sync_cons c id0 ids st)).
    apply elem_of_cons in Hin as [->|Hin]; [|by apply IH].
    eapply settled_extends; [apply syncEntity_settled|apply sync_extends].
Qed.

Lemma sync_noop c ids st :
  (∀ id, id ∈ ids -> settled tmpl fams c id st) -> fst (sync c ids st) = st.
Proof.
  induction ids as [|id0 ids IH]; intros Hall; [done|].
  rewrite (proj1 (sync_cons c id0 ids st)).
  rewrite syncEntity_noop by (apply Hall, list_elem_of_here).
  apply IH. intros id Hin. by apply Hall, list_elem_of_further.
Qed.

Lemma syncClasses_settled cls seen st c id :
  c ∈ cls -> id ∈ seenIDs c seen ->
  settled tmpl fams c id (fst (syncClasses cls seen st)).
Proof.
  revert st. induction cls as [|c0 cls IH]; intros st Hc Hid.
  - by apply elem_of_nil in Hc.
  - rewrite (proj1 (syncClasses_cons c0 cls seen st)).
    apply elem_of_cons in Hc as [->|Hc]; [|by apply IH].
    eapply settled_extends; [by apply sync_settled|apply syncClasses_extends].
Qed.

Lemma syncClasses_noop cls seen st :
  (∀ c id, c ∈ cls -> id ∈ seenIDs c seen -> settled tmpl fams c id st) ->
  fst (syncClasses cls seen st) = st.
Proof.
  induction cls as [|c0 cls IH]; intros Hall; [done|].
  rewrite (proj1 (syncClasses_cons c0 cls seen st)).
  rewrite sync_noop.
  - apply IH. intros c id Hc Hid. apply Hall; [by apply list_elem_of_further|done].
  - intros id Hid. apply Hall; [apply list_elem_of_here|done].
Qed.

End SynchronizerFacts.

Section SynchronizerInvariants.

Import Normalizer Synchronizer.

Variable tmpl : EntityClass -> list ChartTmpl.
Variable fams : list Family.

Local Abbreviation materialize := (materialize tmpl fams).
Local Abbreviation instantiate := (instantiate tmpl fams).
Local Abbreviation syncEntity := (syncEntity tmpl fams).
Local Abbreviation sync := (sync tmpl fams).
Local Abbreviation syncClasses := (syncClasses tmpl fams).

(** *** No duplicate chart ids *)

Lemma syncEntity_NoDup c id (st : WMI.cache * Charts) :
  NoDup (ID <$> snd st) -> NoDup (ID <$> snd (fst (syncEntity c id st))).
Proof.
  destruct st as [k cs]. intros Hnd.
  assert (NoDup (ID <$> fst (materialize c id cs))) as Hm.
  { unfold Synchronizer.materialize. destruct (instantiate c id); [|done].
    by apply addCharts_NoDup. }
  destruct (syncEntity_cases tmpl fams c id k cs)
    as [(_ & ->)|[(_ & _ & ->)|(_ & _ & ->)]]; done.
Qed.

Lemma sync_NoDup c ids (st : WMI.cache * Charts) :
  NoDup (ID <$> snd st) -> NoDup (ID <$> snd (fst (sync c ids st))).
Proof.
  revert st. induction ids as [|id ids IH]; intros st Hnd; [done|].
  rewrite (proj1 (sync_cons tmpl fams c id ids st)).
  by apply IH, syncEntity_NoDup.
Qed.

Lemma syncClasses_NoDup cls seen (st : WMI.cache * Charts) :
  NoDup (ID <$> snd st) -> NoDup (ID <$> snd (fst (syncClasses cls seen st))).
Proof.
  revert st. induction cls as [|c cls IH]; intros st Hnd; [done|].
  rewrite (proj1 (syncClasses_cons tmpl fams c cls seen st)).
  by apply IH, sync_NoDup.
Qed.

(** *** Registered entities have their charts *)





(** *** Where registry keys come from *)

Lemma syncEntity_dom c id (st : WMI.cache * Charts) c' id' :
  id' ∈ dom (WMI.registry c' (fst (fst (syncEntity c id st)))) ->
  id' ∈ dom (WMI.registry c' (fst st)) ∨ (c' = c ∧ id' = id).
Proof.
  destruct st as [k cs].
  destruct (syncEntity_cases tmpl fams c id k cs)
    as [(_ & ->)|[(_ & _ & ->)|(_ & _ & ->)]]; cbn [fst]; [by left| |by left].
  rewrite registry_with_registry. case_decide as Hc; [subst c'|by left].
  rewrite dom_insert, elem_of_union, elem_of_singleton.
  intros [->|Hin]; [by right|by left].
Qed.

Lemma sync_dom c ids (st : WMI.cache * Charts) c' id' :
  id' ∈ dom (WMI.registry c' (fst (fst (sync c ids st)))) ->
  id' ∈ dom (WMI.registry c' (fst st)) ∨ (c' = c ∧ id' ∈ ids).
Proof.
  revert st. induction ids as [|id ids IH]; intros st; [by left|].
  rewrite (proj1 (sync_cons tmpl fams c id ids st)). intros Hin.
  destruct (IH _ Hin) as [Hd|[-> Hi]].
  - destruct (syncEntity_dom _ _ _ _ _ Hd) as [?|[-> ->]]; [by left|].
    right. split; [done|apply list_elem_of_here].
  - right. split; [done|by apply list_elem_of_further].
Qed.

Lemma syncClasses_dom cls seen (st : WMI.cache * Charts) c' id' :
  id' ∈ dom (WMI.registry c' (fst (fst (syncClasses cls seen st)))) ->
  id' ∈ dom (WMI.registry c' (fst st)) ∨ id' ∈ seenIDs c' seen.
Proof.
  revert st. induction cls as [|c cls IH]; intros st; [by left|].
  rewrite (proj1 (syncClasses_cons tmpl fams c cls seen st)). intros Hin.
  destruct (IH _ Hin) as [Hd|Hs]; [|by right].
  destruct (sync_dom _ _ _ _ _ Hd) as [?|[-> ?]]; [by left|by right].
Qed.

(** *** Without a reported failure every seen entity is materialized *)

Lemma syncEntity_nofail c id (st : WMI.cache * Charts) :
  snd (syncEntity c id st) = [] ->
  WMI.known (WMI.registry c (fst (fst (syncEntity c id st)))) id = true.
Proof.
  destruct st as [k cs].
  destruct (syncEntity_cases tmpl fams c id k cs)
    as [(Hk & ->)|[(_ & _ & ->)|(_ & _ & ->)]]; cbn [fst snd]; [done| |done].
  intros _. rewrite registry_with_registry_eq.
  unfold WMI.known. by rewrite lookup_insert_eq.
Qed.

Lemma sync_nofail c ids (st : WMI.cache * Charts) id :
  snd (sync c ids st) = [] -> id ∈ ids ->
  WMI.known (WMI.registry c (fst (fst (sync c ids st)))) id = true.
Proof.
  revert st. induction ids as [|id0 ids IH]; intros st Hnil Hin.
  - by apply elem_of_nil in Hin.
  - rewrite (proj2 (sync_cons tmpl fams c id0 ids st)) in Hnil.
    apply app_eq_nil in Hnil as [H0 Hrest].
    rewrite (proj1 (sync_cons tmpl fams c id0 ids st)).
    apply elem_of_cons in Hin as [->|Hin]; [|by apply IH].
    apply (proj1 (sync_extends tmpl fams c ids _)).
    by apply syncEntity_nofail.
Qed.

Lemma syncClasses_nofail cls seen (st : WMI.cache * Charts) c id :
  snd (syncClasses cls seen st) = [] -> c ∈ cls -> id ∈ seenIDs c seen ->
  WMI.known (WMI.registry c (fst (fst (syncClasses cls seen st)))) id = true.
Proof.
  revert st. induction cls as [|c0 cls IH]; intros st Hnil Hc Hid.
  - by apply elem_of_nil in Hc.
  - rewrite (proj2 (syncClasses_cons tmpl fams c0 cls seen st)) in Hnil.
    apply app_eq_nil in Hnil as [H0 Hrest].
    rewrite (proj1 (syncClasses_cons tmpl fams c0 cls seen st)).
    apply elem_of_cons in Hc as [->|Hc]; [|by apply IH].
    apply (proj1 (syncClasses_extends tmpl fams cls seen _)).
    by apply sync_nofail.
Qed.

(** *** Where charts come from *)

Lemma syncEntity_origin c id (st : WMI.cache * Charts) ch :
  ch ∈ snd (fst (syncEntity c id st)) ->
  ch ∈ snd st ∨ ∃ chs, instantiate c id = Some chs ∧ ch ∈ chs.
Proof.
  destruct st as [k cs].
  assert (ch ∈ fst (materialize c id cs) ->
          ch ∈ cs ∨ ∃ chs, instantiate c id = Some chs ∧ ch ∈ chs) as Hm.
  { unfold Synchronizer.materialize.
    destruct (instantiate c id) as [chs|]; [|by left].
    intros [?|?]%addCharts_origin; [by left|right; by exists chs]. }
  destruct (syncEntity_cases tmpl fams c id k cs)
    as [(_ & ->)|[(_ & _ & ->)|(_ & _ & ->)]]; cbn [fst snd]; [by left|done|done].
Qed.

Lemma sync_origin c ids (st : WMI.cache * Charts) ch :
  ch ∈ snd (fst (sync c ids st)) ->
  ch ∈ snd st
  ∨ ∃ id chs, id ∈ ids ∧ instantiate c id = Some chs ∧ ch ∈ chs.
Proof.
  revert st. induction ids as [|id ids IH]; intros st; [by left|].
  rewrite (proj1 (sync_cons tmpl fams c id ids st)). intros Hin.
  destruct (IH _ Hin) as [Hd|(id' & chs & Hi & Hinst & Hch)].
  - destruct (syncEntity_origin _ _ _ _ Hd) as [?|(chs & ? & ?)]; [by left|].
    right. exists id, chs. split; [apply list_elem_of_here|done].
  - right. exists id', chs. split; [by apply list_elem_of_further|done].
Qed.

Lemma syncClasses_origin cls seen (st : WMI.cache * Charts) ch :
  ch ∈ snd (fst (syncClasses cls seen st)) ->
  ch ∈ snd st
  ∨ ∃ c id chs, id ∈ seenIDs c seen ∧ instantiate c id = Some chs ∧ ch ∈ chs.
Proof.
  revert st. induction cls as [|c cls IH]; intros st; [by left|].
  rewrite (proj1 (syncClasses_cons tmpl fams c cls seen st)). intros Hin.
  destruct (IH _ Hin) as [Hd|?]; [|by right].
  destruct (sync_origin _ _ _ _ Hd) as [?|(id & chs & ? & ? & ?)]; [by left|].
  right. by exists c, id, chs.
Qed.

End SynchronizerInvariants.

(** ** The collection cycle *)

Section ControllerFacts.

Import Normalizer Synchronizer Controller.

Variable tmpl : EntityClass -> list ChartTmpl.
Variable fams : list Family.

Local Abbreviation collect := (collect tmpl fams).
Local Abbreviation cycle := (cycle tmpl fams).
Local Abbreviation run := (run tmpl fams).
Local Abbreviation syncAll := (syncAll tmpl fams).

Lemma syncClasses_nil cls (st : WMI.cache * Charts) :
  syncClasses tmpl fams cls [] st = (st, []).
Proof. induction cls as [|c cls IH]; simpl; [done|]. by rewrite IH. Qed.

(** The collection step never touches anything but the registry, the
    Chart Set and the log. *)
Lemma collect_engine r w :
  engine (fst (collect r w))
  = fst (syncAll (seenEntities fams r) (engine w)).
Proof.
  unfold Controller.collect, seenEntities, Synchronizer.syncAll.
  destruct (fetch r) as [err|body]; [by rewrite syncClasses_nil|].
  destruct (normalize fams body) as [err|n]; [by rewrite syncClasses_nil|].
  unfold engine.
  destruct (syncClasses tmpl fams all_classes (seen n) _) as [[k cs] fs].
  done.
Qed.

Lemma Collect_engine step w :
  engine (fst (WMI.Collect step w)) = engine (fst (step w)).
Proof.
  unfold WMI.Collect. destruct (step w) as [w' [ms [e|]]];
    case_decide; done.
Qed.

Lemma cycle_engine r w :
  engine (fst (cycle r w)) = fst (syncAll (seenEntities fams r) (engine w)).
Proof. unfold Controller.cycle. by rewrite Collect_engine, collect_engine. Qed.

Lemma cycle_extends r w : extends (engine w) (engine (fst (cycle r w))).
Proof. rewrite cycle_engine. apply syncClasses_extends. Qed.

Lemma run_extends rs w : extends (engine w) (engine (run rs w)).
Proof.
  revert w. induction rs as [|r rs IH]; intros w; simpl.
  - apply extends_refl.
  - eapply extends_trans; [apply cycle_extends|apply IH].
Qed.

(** The listed causes are exactly the failures of a cycle. *)
Lemma cycleFails_iff r :
  cycleFails fams r
  ↔ (∃ cause, r = NoResponse cause)
    ∨ (∃ status body, r = Reply status body ∧ ¬ (200 <= status < 300))
    ∨ (∃ status bytes, r = Reply status (Malformed bytes)).
Proof.
  unfold cycleFails. destruct r as [cause|status body]; simpl.
  - split; [|done]. intros _. left. by exists cause.
  - case_decide as Hst.
    + destruct body as [bytes|doc]; simpl.
      * split; [|done]. intros _. right. right. by exists status, bytes.
      * split; [done|].
        intros [(? & [=])|[(? & ? & [= <- <-] & Hn)|(? & ? & [=])]].
        by destruct Hn.
    + split; [|done]. intros _. right. left. by exists status, body.
Qed.

(** A failed collection step hands back the module as it was. *)
Lemma collect_fails r w :
  cycleFails fams r -> ∃ err, collect r w = (w, (None, Some err)).
Proof.
  unfold cycleFails, Controller.collect.
  destruct (fetch r) as [err|body]; [by exists err|].
  destruct (normalize fams body) as [err|n]; [by exists err|done].
Qed.

End ControllerFacts.

(** C2: if the Sample Source or the Normalizer fails (connection refused,
    timeout, a non-2xx status, an unparseable payload), the cycle returns
    no snapshot (nil) and the Entity Registry and the Chart Set are what
    they were before the call. *)
Theorem failed_cycle_is_atomic tmpl fams r w :
  cycleFails fams r ->
  snd (Controller.cycle tmpl fams r w) = None
  ∧ WMI.wcache (fst (Controller.cycle tmpl fams r w)) = WMI.wcache w
  ∧ WMI.charts (fst (Controller.cycle tmpl fams r w)) = WMI.charts w.
Proof.
  intros Hf. destruct (collect_fails tmpl fams r w Hf) as [err Hc].
  unfold Controller.cycle, WMI.Collect. rewrite Hc. simpl. done.
Qed.

(** Scenario C: connection refused on a fresh module. *)
Lemma failed_cycle_is_atomic_witness :
  snd (Controller.cycle Fixture.tmpl Fixture.fams
         (Controller.NoResponse ConnectionRefused) WMI.New) = None
  ∧ WMI.wcache (fst (Controller.cycle Fixture.tmpl Fixture.fams
                       (Controller.NoResponse ConnectionRefused) WMI.New))
    = WMI.wcache WMI.New
  ∧ WMI.charts (fst (Controller.cycle Fixture.tmpl Fixture.fams
                       (Controller.NoResponse ConnectionRefused) WMI.New))
    = WMI.charts WMI.New.
Proof.
  apply (failed_cycle_is_atomic Fixture.tmpl Fixture.fams
           (Controller.NoResponse ConnectionRefused) WMI.New).
  exact I.
Defined.

(** C3: invoking [sync] twice with an identical seen-set, within one
    cycle or across consecutive cycles, never produces duplicate charts
    and never changes the Entity Registry: after the first call it is a
    no-op on the registry and the Chart Set, also when other
    synchronizations ran in between. *)
Theorem sync_is_idempotent tmpl fams c seenIDs (st : WMI.cache * Charts) :
  let st1 := fst (Synchronizer.sync tmpl fams c seenIDs st) in
  fst (Synchronizer.sync tmpl fams c seenIDs st1) = st1
  ∧ (∀ st2, extends st1 st2 ->
            fst (Synchronizer.sync tmpl fams c seenIDs st2) = st2)
  ∧ (NoDup (ID <$> snd st) -> NoDup (ID <$> snd st1))
  ∧ (∀ r w,
       engine (fst (Controller.cycle tmpl fams r
                      (fst (Controller.cycle tmpl fams r w))))
       = engine (fst (Controller.cycle tmpl fams r w))).
Proof.
  cbv zeta.
  assert (∀ st2, extends (fst (Synchronizer.sync tmpl fams c seenIDs st)) st2 ->
                 fst (Synchronizer.sync tmpl fams c seenIDs st2) = st2) as Hno.
  { intros st2 Hext. apply sync_noop. intros id Hin.
    eapply settled_extends; [by apply sync_settled|exact Hext]. }
  split; [apply Hno, extends_refl|]. split; [exact Hno|].
  split; [apply sync_NoDup|].
  intros r w. rewrite !cycle_engine.
  apply syncClasses_noop. intros c' id _ Hid.
  apply syncClasses_settled; [apply elem_of_all_classes|done].
Qed.

(** ** The registry over consecutive cycles *)

Section RegistryGrowth.

Import Normalizer Synchronizer Controller.

Variable tmpl : EntityClass -> list ChartTmpl.
Variable fams : list Family.

Local Abbreviation cycle := (cycle tmpl fams).
Local Abbreviation run := (run tmpl fams).

Lemma failuresOf_syncAll r w :
  failuresOf tmpl fams r w
  = snd (syncAll tmpl fams (seenEntities fams r) (engine w)).
Proof.
  unfold failuresOf, seenEntities, Synchronizer.syncAll.
  destruct (fetch r) as [err|body]; [by rewrite syncClasses_nil|].
  destruct (normalize fams body) as [err|n]; [by rewrite syncClasses_nil|done].
Qed.

Lemma cycle_dom r w c id :
  id ∈ dom (WMI.registry c (WMI.wcache (fst (cycle r w)))) ->
  id ∈ dom (WMI.registry c (WMI.wcache w)) ∨ id ∈ seenOf fams c r.
Proof.
  change (WMI.wcache (fst (cycle r w))) with (fst (engine (fst (cycle r w)))).
  rewrite cycle_engine. intros Hin.
  by apply syncClasses_dom in Hin.
Qed.

Lemma run_dom rs w c id :
  id ∈ dom (WMI.registry c (WMI.wcache (run rs w))) ->
  id ∈ dom (WMI.registry c (WMI.wcache w))
  ∨ ∃ r, r ∈ rs ∧ id ∈ seenOf fams c r.
Proof.
  revert w. induction rs as [|r rs IH]; intros w; [by left|].
  cbn [Controller.run]. intros Hin.
  destruct (IH _ Hin) as [Hd|(r' & Hr' & Hs)].
  - destruct (cycle_dom _ _ _ _ Hd) as [?|?]; [by left|].
    right. exists r. split; [apply list_elem_of_here|done].
  - right. exists r'. split; [by apply list_elem_of_further|done].
Qed.

Lemma run_nofail rs w c id r :
  runFailures tmpl fams rs w = [] -> r ∈ rs -> id ∈ seenOf fams c r ->
  WMI.known (WMI.registry c (WMI.wcache (run rs w))) id = true.
Proof.
  revert w. induction rs as [|r0 rs IH]; intros w Hnil Hr Hid.
  - by apply elem_of_nil in Hr.
  - cbn [Controller.runFailures] in Hnil.
    apply app_eq_nil in Hnil as [H0 Hrest]. cbn [Controller.run].
    apply elem_of_cons in Hr as [->|Hr]; [|by apply IH].
    apply (proj1 (run_extends tmpl fams rs (fst (cycle r0 w)))).
    change (WMI.wcache (fst (cycle r0 w)))
      with (fst (engine (fst (cycle r0 w)))).
    rewrite cycle_engine. rewrite failuresOf_syncAll in H0.
    apply syncClasses_nofail; [done|apply elem_of_all_classes|done].
Qed.

Lemma elem_of_seen_union c rs id :
  id ∈ ⋃ (seenSet fams c <$> rs) ↔ ∃ r, r ∈ rs ∧ id ∈ seenOf fams c r.
Proof.
  rewrite elem_of_union_list. split.
  - intros (X & HX & Hid). apply list_elem_of_fmap in HX as (r & -> & Hr).
    exists r. split; [done|]. unfold seenSet in Hid.
    by apply elem_of_list_to_set in Hid.
  - intros (r & Hr & Hid). exists (seenSet fams c r). split.
    + by apply list_elem_of_fmap_2.
    + unfold seenSet. by apply elem_of_list_to_set.
Qed.

End RegistryGrowth.

(** In the engine, an entity once in the Entity Registry never leaves it,
    whatever a later cycle sees; across consecutive cycles from an empty
    registry the registry after cycle k is contained in S1 ∪ ... ∪ Sk, and
    it equals that union when no chart instantiation failed. *)
Theorem registry_is_monotone tmpl fams c :
  (∀ r w, dom (WMI.registry c (WMI.wcache w))
          ⊆ dom (WMI.registry c
                   (WMI.wcache (fst (Controller.cycle tmpl fams r w)))))
  ∧ (∀ rs w, emptyRegistry w ->
       dom (WMI.registry c (WMI.wcache (Controller.run tmpl fams rs w)))
       ⊆ ⋃ (seenSet fams c <$> rs))
  ∧ (∀ rs w, emptyRegistry w ->
       Controller.runFailures tmpl fams rs w = [] ->
       dom (WMI.registry c (WMI.wcache (Controller.run tmpl fams rs w)))
       = ⋃ (seenSet fams c <$> rs)).
Proof.
  assert (∀ rs w, emptyRegistry w ->
            dom (WMI.registry c (WMI.wcache (Controller.run tmpl fams rs w)))
            ⊆ ⋃ (seenSet fams c <$> rs)) as Hupper.
  { intros rs w Hempty id Hin. apply elem_of_seen_union.
    destruct (run_dom tmpl fams rs w c id Hin) as [Hd|?]; [|done].
    rewrite Hempty, dom_empty in Hd. by apply elem_of_empty in Hd. }
  split; [|split; [exact Hupper|]].
  - intros r w. apply (proj1 (proj2 (cycle_extends tmpl fams r w))).
  - intros rs w Hempty Hnil. apply set_eq. intros id. split.
    + apply Hupper, Hempty.
    + intros (r & Hr & Hid)%elem_of_seen_union.
      apply known_dom. by eapply run_nofail.
Qed.

(** Two cycles, the second with a new disk [D:] (scenario E). *)
Lemma registry_is_monotone_witness :
  dom (WMI.registry volume
         (WMI.wcache
            (Controller.run Fixture.tmpl Fixture.fams
               [Fixture.ok (Fixture.disk "C:");
                Fixture.ok (Fixture.disk "C:" ++ Fixture.disk "D:")]
               WMI.New)))
  = ⋃ (seenSet Fixture.fams volume
         <$> [Fixture.ok (Fixture.disk "C:");
              Fixture.ok (Fixture.disk "C:" ++ Fixture.disk "D:")]).
Proof.
  apply (proj2 (proj2 (registry_is_monotone Fixture.tmpl Fixture.fams volume))).
  - intros c. destruct c; reflexivity.
  - vm_compute. reflexivity.
Defined.

(** In the engine, with the tables of [Fixture], a fresh module sees in
    one successful cycle the database [p_instance_q] of instance [r] and the database [p] of
    instance [q_instance_r]; both entities instantiate the chart id
    [mssql_db_p_instance_q_instance_r_active_transactions], the second
    one is refused, and the registry holds one of the two seen
    entities. *)
Lemma registry_misses_refused_entity :
  let r := Fixture.ok [Fixture.dbSample "r" "p_instance_q" 1;
                      Fixture.dbSample "q_instance_r" "p" 2] in
  let w' := fst (Controller.cycle Fixture.tmpl Fixture.fams r WMI.New) in
  nonEmptySnapshot (snd (Controller.cycle Fixture.tmpl Fixture.fams r WMI.New))
  ∧ seenSet Fixture.fams db_instance_database_pair r
    = {["r:p_instance_q"; "q_instance_r:p"]}
  ∧ dom (WMI.registry db_instance_database_pair (WMI.wcache w'))
    = {["r:p_instance_q"]}
  ∧ dom (WMI.registry db_instance_database_pair (WMI.wcache w'))
    ≠ seenSet Fixture.fams db_instance_database_pair r.
Proof.
  cbv zeta. split; [|split; [|split]].
  - apply len_pos_iff. vm_compute. lia.
  - vm_compute. reflexivity.
  - vm_compute. reflexivity.
  - apply (bool_decide_eq_false_1 _). vm_compute. reflexivity.
Qed.

(** ** Composite keys *)

Lemma cut_pair instance database :
  EntityID.has_separator instance = false ->
  EntityID.cut (EntityID.pair instance database) = Some (instance, database).
Proof.
  unfold EntityID.pair. induction instance as [|ch i IH]; simpl.
  - done.
  - case_decide as Hch; [done|]. intros Hi. by rewrite IH.
Qed.

Lemma cut_without_separator s :
  EntityID.has_separator s = false -> EntityID.cut s = None.
Proof.
  induction s as [|ch s IH]; simpl; [done|].
  case_decide as Hch; [done|]. intros Hs. by rewrite IH.
Qed.



(** ** The Normalizer *)

Section NormalizerFacts.

Import Normalizer.

Variable fams : list Family.

Lemma elem_of_observe (e e' : EntityClass * string) l :
  e' ∈ observe e l ↔ e' = e ∨ e' ∈ l.
Proof.
  unfold observe. case_decide as Hin.
  - split; [by right|]. intros [->|?]; done.
  - rewrite elem_of_app, list_elem_of_singleton. tauto.
Qed.

Lemma elem_of_seenIDs c id (l : list (EntityClass * string)) :
  id ∈ seenIDs c l ↔ (c, id) ∈ l.
Proof.
  unfold seenIDs. rewrite (list_elem_of_In _ id), in_map_iff. split.
  - intros ([c' id'] & Hid & Hf). simpl in Hid. subst id'.
    apply filter_In in Hf as [Hin Hc]. apply bool_decide_eq_true in Hc.
    simpl in Hc. subst c'. by apply list_elem_of_In.
  - intros Hin. exists (c, id). split; [done|]. apply filter_In. split.
    + by apply list_elem_of_In.
    + by apply bool_decide_eq_true.
Qed.

Lemma normalizeSample_seen acc s e :
  e ∈ seen (normalizeSample fams acc s)
  ↔ e ∈ seen acc ∨ ∃ r, recognize fams s = Some r ∧ rentity r = Some e.
Proof.
  unfold normalizeSample. destruct (recognize fams s) as [r|]; simpl.
  - destruct (rentity r) as [e0|] eqn:He; simpl.
    + rewrite elem_of_observe. split.
      * intros [->|?]; [right; by exists r|by left].
      * intros [?|(r' & [= <-] & He')]; [by right|left; congruence].
    + split; [by left|]. intros [?|(r' & [= <-] & He')]; [done|congruence].
  - split; [by left|]. by intros [?|(r' & [=] & _)].
Qed.

Lemma fold_normalize_seen doc acc e :
  e ∈ seen (fold_left (normalizeSample fams) doc acc)
  ↔ e ∈ seen acc
    ∨ ∃ s r, s ∈ doc ∧ recognize fams s = Some r ∧ rentity r = Some e.
Proof.
  revert acc. induction doc as [|s doc IH]; intros acc; simpl.
  - split; [by left|]. intros [?|(s & r & Hs & _)]; [done|].
    by apply elem_of_nil in Hs.
  - rewrite IH, normalizeSample_seen. split.
    + intros [[?|(r & ? & ?)]|(s' & r & ? & ? & ?)].
      * by left.
      * right. exists s, r. split; [apply list_elem_of_here|done].
      * right. exists s', r. split; [by apply list_elem_of_further|done].
    + intros [?|(s' & r & Hs & ? & ?)]; [left; by left|].
      apply elem_of_cons in Hs as [->|Hs].
      * left. right. by exists r.
      * right. by exists s', r.
Qed.

Lemma normalizeSample_keeps acc s key :
  is_Some (snapshot acc !! key) ->
  is_Some (snapshot (normalizeSample fams acc s) !! key).
Proof.
  unfold normalizeSample. destruct (recognize fams s) as [r|]; simpl; [|done].
  intros Hk. destruct (decide (metricID r = key)) as [<-|Hne].
  - rewrite lookup_insert_eq. by eexists.
  - by rewrite lookup_insert_ne.
Qed.

Lemma fold_normalize_keeps doc acc key :
  is_Some (snapshot acc !! key) ->
  is_Some (snapshot (fold_left (normalizeSample fams) doc acc) !! key).
Proof.
  revert acc. induction doc as [|s doc IH]; intros acc Hk; simpl; [done|].
  by apply IH, normalizeSample_keeps.
Qed.

Lemma fold_normalize_emits doc acc s r :
  s ∈ doc -> recognize fams s = Some r ->
  is_Some (snapshot (fold_left (normalizeSample fams) doc acc) !! metricID r).
Proof.
  revert acc. induction doc as [|s0 doc IH]; intros acc Hs Hr.
  - by apply elem_of_nil in Hs.
  - simpl. apply elem_of_cons in Hs as [->|Hs]; [|by apply IH].
    apply fold_normalize_keeps. unfold normalizeSample. rewrite Hr. simpl.
    rewrite lookup_insert_eq. by eexists.
Qed.

Lemma elem_of_emitted doc key :
  key ∈ emitted fams doc
  ↔ ∃ s r, s ∈ doc ∧ recognize fams s = Some r ∧ metricID r = key.
Proof.
  unfold emitted. rewrite list_elem_of_omap. split.
  - intros (s & Hs & Hk). destruct (recognize fams s) as [r|] eqn:Hr; [|done].
    simpl in Hk. injection Hk as <-. by exists s, r.
  - intros (s & r & Hs & Hr & <-). exists s. split; [done|]. by rewrite Hr.
Qed.

End NormalizerFacts.

(** ** From samples to entities and charts *)

Section Coverage.

Import Normalizer Synchronizer Controller.

Variable tmpl : EntityClass -> list ChartTmpl.
Variable fams : list Family.

Local Abbreviation instantiate := (instantiate tmpl fams).
Local Abbreviation cycle := (cycle tmpl fams).
Local Abbreviation run := (run tmpl fams).

Lemma seenEntities_reply status doc :
  200 <= status < 300 ->
  seenEntities fams (Reply status (Exposition doc))
  = seen (fold_left (normalizeSample fams) doc start).
Proof. intros Hst. unfold seenEntities. simpl. by rewrite decide_True. Qed.


(** A successful cycle returns the Normalizer's snapshot of a decoded
    document that arrived with a 2xx status. *)
Lemma cycle_snapshot r w w' m :
  cycle r w = (w', Some m) ->
  ∃ status doc,
    r = Reply status (Exposition doc) ∧ 200 <= status < 300
    ∧ m = snapshot (fold_left (normalizeSample fams) doc start).
Proof.
  unfold Controller.cycle, WMI.Collect, Controller.collect.
  destruct r as [cause|status body]; simpl; [done|].
  case_decide as Hst; simpl; [|done].
  destruct body as [bytes|doc]; simpl; [done|].
  destruct (syncAll tmpl fams _ _) as [[k cs] fs].
  case_decide as Hz; [done|]. intros [= _ <-]. by exists status, doc.
Qed.

Lemma recognize_elem s r : recognize fams s = Some r -> rfamily r ∈ fams.
Proof.
  unfold recognize.
  destruct (find _ fams) as [F|] eqn:HF; [|done].
  apply find_some in HF as [HF _]. apply list_elem_of_In in HF.
  destruct (fscope F) as [|c l|il dl].
  - by intros [= <-].
  - destruct (label l s); [|done]. by intros [= <-].
  - destruct (label il s); [|done]. destruct (label dl s); [|done].
    by intros [= <-].
Qed.

(** The key under which an entity is seen splits back into the operands
    its metrics were built from, unless it splits into nothing. *)
Lemma recognize_args s r c id :
  recognize fams s = Some r -> rentity r = Some (c, id) ->
  (c = db_instance_database_pair ->
   forallb (fun a => negb (EntityID.has_separator a)) (rargs r) = true) ->
  tmplArgs c id = Some (rargs r) ∨ tmplArgs c id = None.
Proof.
  unfold recognize. destruct (find _ fams) as [F|]; [|done].
  destruct (fscope F) as [|c0 l|il dl].
  - by intros [= <-].
  - destruct (label l s) as [v|]; [|done]. intros [= <-].
    cbn [rentity rargs]. intros [= <- <-] Hsep.
    destruct (decide (c0 = db_instance_database_pair)) as [->|Hc].
    + right. specialize (Hsep eq_refl). cbn [forallb] in Hsep.
      unfold tmplArgs. rewrite cut_without_separator; [done|].
      by destruct (EntityID.has_separator v).
    + left. by destruct c0.
  - destruct (label il s) as [i|]; [|done].
    destruct (label dl s) as [d|]; [|done]. intros [= <-].
    cbn [rentity rargs]. intros [= <- <-] Hsep. left.
    specialize (Hsep eq_refl). cbn [forallb] in Hsep.
    unfold tmplArgs. rewrite cut_pair; [done|].
    destruct (EntityID.has_separator d); [done|].
    by destruct (EntityID.has_separator i).
Qed.


Lemma declared_spec c f :
  declared fams c f = true ->
  ∃ F, F ∈ fams ∧ classOf (fscope F) = Some c ∧ fmetric F = f.
Proof.
  unfold declared. rewrite existsb_exists. intros (F & HF & Hd).
  apply bool_decide_eq_true in Hd as [? ?]. exists F.
  split; [by apply list_elem_of_In|done].
Qed.

Lemma instantiate_Some c id chs :
  instantiate c id = Some chs ->
  ∃ args, tmplArgs c id = Some args
          ∧ chs = List.map (fun t => instantiateChart t args) (tmpl c)
          ∧ ∀ t f, t ∈ tmpl c -> f ∈ tDims t ++ tVars t ->
                   declared fams c f = true.
Proof.
  unfold Synchronizer.instantiate.
  destruct (forallb (wellDeclared fams c) (tmpl c)) eqn:Hwd; [|done].
  destruct (tmplArgs c id) as [args|]; [|done]. intros [= <-].
  exists args. split; [done|]. split; [done|]. intros t f Ht Hf.
  rewrite forallb_forall in Hwd. apply list_elem_of_In in Ht.
  specialize (Hwd t Ht). unfold wellDeclared in Hwd.
  rewrite forallb_forall in Hwd. apply Hwd. by apply list_elem_of_In.
Qed.

Lemma complete_spec doc s r c id F :
  complete fams doc = true ->
  s ∈ doc -> recognize fams s = Some r -> rentity r = Some (c, id) ->
  F ∈ fams -> classOf (fscope F) = Some c ->
  Sprintf (fmetric F) (rargs r) ∈ emitted fams doc.
Proof.
  unfold complete. rewrite forallb_forall. intros Hall Hs Hr He HF Hc.
  apply list_elem_of_In in Hs. specialize (Hall s Hs).
  rewrite Hr, He in Hall. rewrite forallb_forall in Hall.
  apply list_elem_of_In in HF. specialize (Hall F HF).
  rewrite decide_True in Hall by done. by apply bool_decide_eq_true in Hall.
Qed.

Lemma separatorFree_spec doc s r c id :
  separatorFree fams doc = true ->
  s ∈ doc -> recognize fams s = Some r -> rentity r = Some (c, id) ->
  c = db_instance_database_pair ->
  forallb (fun a => negb (EntityID.has_separator a)) (rargs r) = true.
Proof.
  unfold separatorFree. rewrite forallb_forall. intros Hall Hs Hr He ->.
  apply list_elem_of_In in Hs. specialize (Hall s Hs).
  by rewrite Hr, He in Hall.
Qed.

(** Every chart of an entity seen in a complete, separator-free document
    is covered by the snapshot of that document. *)
Lemma seen_entity_covered doc c id chs ch :
  complete fams doc = true -> separatorFree fams doc = true ->
  (c, id) ∈ seen (fold_left (normalizeSample fams) doc start) ->
  instantiate c id = Some chs -> ch ∈ chs ->
  covered (snapshot (fold_left (normalizeSample fams) doc start)) ch.
Proof.
  intros Hcomplete Hfree Hseen Hinst Hch d Hd.
  apply fold_normalize_seen in Hseen as [Hin|(s & r & Hs & Hr & He)];
    [by apply elem_of_nil in Hin|].
  apply instantiate_Some in Hinst as (args & Hargs & -> & Hdecl).
  assert (c = db_instance_database_pair ->
          forallb (fun a => negb (EntityID.has_separator a)) (rargs r) = true)
    as Hsep by (intros Hc; by apply (separatorFree_spec doc s r c id)).
  destruct (recognize_args s r c id Hr He Hsep) as [Hsame|Hnone];
    [|by rewrite Hnone in Hargs].
  rewrite Hsame in Hargs. injection Hargs as <-.
  apply list_elem_of_In, in_map_iff in Hch as (t & <- & Ht).
  apply list_elem_of_In in Ht.
  assert (∃ f, f ∈ tDims t ++ tVars t ∧ d = Sprintf f (rargs r))
    as (f & Hf & ->).
  { unfold instantiateChart in Hd. simpl in Hd.
    apply elem_of_app in Hd as [Hd|Hd];
      apply list_elem_of_In, in_map_iff in Hd as (f & <- & Hf);
      apply list_elem_of_In in Hf; exists f;
      (split; [|done]); apply elem_of_app; [by left|by right]. }
  destruct (declared_spec c f (Hdecl t f Ht Hf)) as (F & HF & Hc & <-).
  pose proof (complete_spec doc s r c id F Hcomplete Hs Hr He HF Hc) as Hem.
  apply elem_of_emitted in Hem as (s' & r' & Hs' & Hr' & <-).
  by apply (fold_normalize_emits fams doc start s' r').
Qed.

End Coverage.

(** Every chart that a successful cycle on a complete, separator-free
    document created, and every chart of an entity it saw, is covered by
    the cycle's snapshot. *)
Lemma created_or_seen_chart_covered tmpl fams status doc w w' m ch :
  Controller.cycle tmpl fams
    (Controller.Reply status (Normalizer.Exposition doc)) w = (w', Some m) ->
  complete fams doc = true ->
  separatorFree fams doc = true ->
  ch ∈ WMI.charts w' ->
  (ch ∉ WMI.charts w
   ∨ ∃ c id chs,
       id ∈ Controller.seenOf fams c
              (Controller.Reply status (Normalizer.Exposition doc))
       ∧ Synchronizer.instantiate tmpl fams c id = Some chs ∧ ch ∈ chs) ->
  covered m ch.
Proof.
  intros Hcycle Hcomplete Hfree Hch Hwhich.
  destruct (cycle_snapshot tmpl fams _ _ _ _ Hcycle)
    as (status' & doc' & [= <- <-] & Hst & ->).
  assert (∃ c id chs,
             id ∈ Controller.seenOf fams c
                    (Controller.Reply status (Normalizer.Exposition doc))
             ∧ Synchronizer.instantiate tmpl fams c id = Some chs ∧ ch ∈ chs)
    as (c & id & chs & Hid & Hinst & Hin).
  { destruct Hwhich as [Hnew|?]; [|done].
    assert (engine w' = fst (Synchronizer.syncAll tmpl fams
                               (Controller.seenEntities fams
                                  (Controller.Reply status
                                     (Normalizer.Exposition doc)))
                               (engine w))) as Heng.
    { rewrite <- cycle_engine. by rewrite Hcycle. }
    change (WMI.charts w') with (snd (engine w')) in Hch.
    rewrite Heng in Hch.
    apply syncClasses_origin in Hch as [Hold|?]; [|done].
    by destruct Hnew. }
  unfold Controller.seenOf in Hid. apply elem_of_seenIDs in Hid.
  rewrite seenEntities_reply in Hid by done.
  by eapply seen_entity_covered.
Qed.

Lemma covered_iff mx ch :
  covered mx ch
  ↔ (∀ dim, dim ∈ Dims ch -> is_Some (mx !! dim))
    ∧ (∀ v, v ∈ Vars ch -> is_Some (mx !! v)).
Proof.
  unfold covered. split.
  - intros Hc. split; intros d Hd; apply Hc, elem_of_app; [by left|by right].
  - intros [Hd Hv] d [?|?]%elem_of_app; [by apply Hd|by apply Hv].
Qed.

(** In the engine, after a successful cycle on a document that carries
    every series of each entity it mentions and no separator inside the
    components of a composite key, every dimension id and variable id
    declared by a chart the cycle created, or by a chart of an entity of
    the cycle's seen-set, is a key of that cycle's Snapshot; on a module
    whose Chart Set was empty that is every chart, the check of the test
    [ensureCollectedHasAllChartsDimsVarsIDs]. *)
Theorem charts_of_seen_entities_are_covered tmpl fams status doc w w' m :
  Controller.cycle tmpl fams
    (Controller.Reply status (Normalizer.Exposition doc)) w = (w', Some m) ->
  complete fams doc = true ->
  separatorFree fams doc = true ->
  (∀ ch, ch ∈ WMI.charts w' ->
     (ch ∉ WMI.charts w
      ∨ ∃ c id chs,
          id ∈ Controller.seenOf fams c
                 (Controller.Reply status (Normalizer.Exposition doc))
          ∧ Synchronizer.instantiate tmpl fams c id = Some chs ∧ ch ∈ chs) ->
     covered m ch)
  ∧ (WMI.charts w = [] ->
     ensureCollectedHasAllChartsDimsVarsIDs (WMI.charts w') m).
Proof.
  intros Hcycle Hcomplete Hfree. split.
  - intros ch. by apply (created_or_seen_chart_covered tmpl fams status doc w).
  - intros Hnil chart Hchart. apply covered_iff.
    apply (created_or_seen_chart_covered tmpl fams status doc w w');
      [done|done|done|done|].
    left. rewrite Hnil. apply not_elem_of_nil.
Qed.

(** The first cycle of a fresh module, with one disk. *)
Lemma charts_of_seen_entities_are_covered_witness :
  ensureCollectedHasAllChartsDimsVarsIDs
    (WMI.charts
       (fst (Controller.cycle Fixture.tmpl Fixture.fams
               (Fixture.ok (Fixture.osProcesses :: Fixture.disk "C:"))
               WMI.New)))
    (default ∅
       (snd (Controller.cycle Fixture.tmpl Fixture.fams
               (Fixture.ok (Fixture.osProcesses :: Fixture.disk "C:"))
               WMI.New))).
Proof.
  apply (charts_of_seen_entities_are_covered Fixture.tmpl Fixture.fams 200
           (Fixture.osProcesses :: Fixture.disk "C:") WMI.New).
  - vm_compute. reflexivity.
  - vm_compute. reflexivity.
  - vm_compute. reflexivity.
  - reflexivity.
Defined.

(** In the engine, with the tables of [Fixture], the first cycle of a
    fresh module sees the disks [C:] and [D:], the second one, as
    successful, sees [C:] alone; the
    chart of [D:] stays in the Chart Set and its dimension
    [logical_disk_D:_free_space] is no key of the second Snapshot, so the
    check of [ensureCollectedHasAllChartsDimsVarsIDs] fails there. *)
Lemma chart_of_vanished_entity_is_not_covered :
  let w1 := fst (Controller.cycle Fixture.tmpl Fixture.fams
                   (Fixture.ok (Fixture.disk "C:" ++ Fixture.disk "D:"))
                   WMI.New) in
  let c2 := Controller.cycle Fixture.tmpl Fixture.fams
              (Fixture.ok (Fixture.disk "C:")) w1 in
  let chD := {| ID := "logical_disk_D:_utilization";
                Dims := ["logical_disk_D:_free_space";
                         "logical_disk_D:_used_space"];
                Vars := [] |} in
  let m : gmap string Z := default ∅ (snd c2) in
  snd c2 = Some m
  ∧ m ≠ ∅
  ∧ chD ∈ WMI.charts (fst c2)
  ∧ m !! "logical_disk_D:_free_space" = None
  ∧ ¬ ensureCollectedHasAllChartsDimsVarsIDs (WMI.charts (fst c2)) m.
Proof.
  cbv zeta. split; [vm_compute; reflexivity|].
  split; [|split; [|split]].
  - apply (bool_decide_eq_false_1 _). vm_compute. reflexivity.
  - vm_compute. apply list_elem_of_further, list_elem_of_here.
  - vm_compute. reflexivity.
  - intros Hall.
    destruct (Hall {| ID := "logical_disk_D:_utilization";
                      Dims := ["logical_disk_D:_free_space";
                               "logical_disk_D:_used_space"];
                      Vars := [] |}) as [Hdims _].
    { vm_compute. apply list_elem_of_further, list_elem_of_here. }
    destruct (Hdims "logical_disk_D:_free_space") as [v Hv].
    { apply list_elem_of_here. }
    revert Hv. vm_compute. discriminate.
Qed.

(** ** Composite keys in the registry *)


(** C7: the database [a:b] of the instance [SQLEXPRESS] is neither
    rejected nor escaped: it is registered in [cache.mssqlDBs] under the
    key [SQLEXPRESS:a:b], which [strings.Split] cuts on [:] into three
    components, so that on any module whose cache holds that key the
    test's assertion that the key splits in two, and with it the check of
    [ensureChartsDimsCreated], fails. *)
Lemma composite_key_with_separator_is_registered :
  let w' := fst (Controller.cycle Fixture.tmpl Fixture.fams
                   (Fixture.ok [Fixture.dbSample "SQLEXPRESS" "a:b" 1])
                   WMI.New) in
  EntityID.pair "SQLEXPRESS" "a:b" = "SQLEXPRESS:a:b"
  ∧ dom (WMI.mssqlDBs (WMI.wcache w')) = {["SQLEXPRESS:a:b"]}
  ∧ Split "SQLEXPRESS:a:b" EntityID.separator = ["SQLEXPRESS"; "a"; "b"]
  ∧ (∀ tmpl w, "SQLEXPRESS:a:b" ∈ dom (WMI.mssqlDBs (WMI.wcache w)) ->
               ¬ entityChartsCreated tmpl w)
  ∧ ¬ entityChartsCreated Fixture.tmpl w'.
Proof.
  assert (Hfail : ∀ tmpl w,
             "SQLEXPRESS:a:b" ∈ dom (WMI.mssqlDBs (WMI.wcache w)) ->
             ¬ entityChartsCreated tmpl w).
  { intros tmpl w Hin Hc. unfold entityChartsCreated in Hc. cbv zeta in Hc.
    destruct Hc as (_ & _ & _ & _ & _ & _ & _ & Hdb & _).
    destruct (Hdb _ Hin) as (instance & db & Hsplit & _).
    revert Hsplit. vm_compute. discriminate. }
  cbv zeta. split; [reflexivity|]. split; [vm_compute; reflexivity|].
  split; [reflexivity|]. split; [exact Hfail|].
  apply Hfail. apply (bool_decide_eq_true_1 _). vm_compute. reflexivity.
Qed.

(** ** The checks of the module's test *)

Lemma Split_nonempty s sep : Split s sep ≠ [].
Proof.
  destruct s as [|ch s]; simpl; [done|].
  case_decide; [done|]. by destruct (Split s sep).
Qed.



Section TestChecks.

Import Normalizer Synchronizer Controller.

Variable tmpl : EntityClass -> list ChartTmpl.
Variable fams : list Family.



End TestChecks.



(** * More of the code *)

(** ** Splitting and joining keys *)

Section Strings.

Import Harness.

Lemma string_length_app (a b : string) :
  String.length (a +:+ b) = (String.length a + String.length b)%nat.
Proof. induction a as [|c a IH]; simpl; [done|]. by rewrite IH. Qed.

Lemma string_app_inv_tail (a b t : string) : a +:+ t = b +:+ t -> a = b.
Proof.
  revert b. induction a as [|c a IH]; intros b Heq.
  - destruct b as [|d b]; [done|].
    apply (f_equal String.length) in Heq. simpl in Heq.
    rewrite !string_length_app in Heq. simpl in Heq. lia.
  - destruct b as [|d b].
    + apply (f_equal String.length) in Heq. simpl in Heq.
      rewrite !string_length_app in Heq. simpl in Heq. lia.
    + simpl in Heq. injection Heq as -> Heq. by rewrite (IH b Heq).
Qed.

Lemma Split_length s sep : length (Split s sep) = S (occurrences sep s).
Proof.
  induction s as [|ch s IH]; simpl; [done|].
  case_decide as Hch; simpl; [by rewrite IH|].
  destruct (Split s sep) as [|p ps]; simpl in *; lia.
Qed.

Lemma Split_pieces s sep :
  Forall (fun p => occurrences sep p = 0%nat) (Split s sep).
Proof.
  induction s as [|ch s IH]; simpl.
  - by apply Forall_singleton.
  - case_decide as Hch.
    + by apply Forall_cons.
    + destruct (Split s sep) as [|p ps].
      * apply Forall_singleton. simpl. by rewrite decide_False.
      * apply Forall_cons in IH as [Hp Hps]. apply Forall_cons.
        split; [|done]. simpl. by rewrite decide_False.
Qed.

Lemma concat_cons (sep x : string) (l : list string) :
  l ≠ [] -> String.concat sep (x :: l) = x +:+ sep +:+ String.concat sep l.
Proof. by destruct l. Qed.

(** [strings.Join(strings.Split(s, sep), sep) == s]. *)
Lemma Split_concat s sep :
  String.concat (String sep "") (Split s sep) = s.
Proof.
  induction s as [|ch s IH]; [done|]. cbn [Split].
  case_decide as Hch.
  - subst ch. rewrite concat_cons by apply Split_nonempty. by rewrite IH.
  - destruct (Split s sep) as [|p ps] eqn:Hs.
    + by apply Split_nonempty in Hs.
    + rewrite <- IH. by destruct ps.
Qed.

Lemma Split_free s sep : occurrences sep s = 0%nat -> Split s sep = [s].
Proof.
  induction s as [|ch s IH]; simpl; [done|].
  case_decide as Hch; [done|]. intros Hs. by rewrite IH.
Qed.

Lemma Split_app_sep a b sep :
  occurrences sep a = 0%nat ->
  Split (a +:+ String sep b) sep = a :: Split b sep.
Proof.
  induction a as [|ch a IH]; simpl.
  - intros _. by rewrite decide_True.
  - case_decide as Hch; [done|]. intros Ha. by rewrite IH.
Qed.

End Strings.

(** X1 ([ensureChartsDimsCreated], the loop over [cache.mssqlDBs]): the
    assertion [assert.Lenf(t, s, 2, ...)] on [strings.Split(instanceDB,
    ":")] holds exactly for the keys with one [:], and [s[0]], [s[1]] are
    then the only two separator-free strings that joined by [:] give the
    key back. *)
Theorem split_in_two_iff_one_separator (instanceDB : string) :
  (length (Split instanceDB ":"%char) = 2%nat
   ↔ Harness.occurrences ":"%char instanceDB = 1%nat)
  ∧ (∀ instance db,
       Split instanceDB ":"%char = [instance; db]
       ↔ instanceDB = instance +:+ String ":"%char db
         ∧ Harness.occurrences ":"%char instance = 0%nat
         ∧ Harness.occurrences ":"%char db = 0%nat).
Proof.
  split.
  - rewrite Split_length. lia.
  - intros instance db. split.
    + intros Hs. split; [|split].
      * rewrite <- (Split_concat instanceDB ":"%char) at 1. by rewrite Hs.
      * pose proof (Split_pieces instanceDB ":"%char) as Hp. rewrite Hs in Hp.
        by apply Forall_cons in Hp as [? _].
      * pose proof (Split_pieces instanceDB ":"%char) as Hp. rewrite Hs in Hp.
        apply Forall_cons in Hp as [_ Hp]. by apply Forall_cons in Hp as [? _].
    + intros (-> & Hi & Hd). rewrite Split_app_sep by done.
      by rewrite Split_free.
Qed.

(** ** Chart ids of distinct entities *)

Lemma Sprintf_one_verb f a b :
  Harness.verbs f = 1%nat -> Sprintf f [a] = Sprintf f [b] -> a = b.
Proof.
  induction f as [|p f IH]; simpl; [done|]. destruct p as [s|].
  - intros Hv Heq. apply IH; [done|]. by apply (inj (String.app s)) in Heq.
  - intros _ Heq. by apply string_app_inv_tail in Heq.
Qed.

(** X2 ([ensureChartsDimsCreated], [id := fmt.Sprintf(chart.ID, core)] and
    the like): a chart id template with one [%s] verb gives distinct
    entities distinct chart ids. *)
Theorem one_verb_template_separates_entities f a b :
  Harness.verbs f = 1%nat -> a ≠ b -> Sprintf f [a] ≠ Sprintf f [b].
Proof. intros Hv Hne Heq. by apply Hne, (Sprintf_one_verb f). Qed.

(** The cores [0,0] and [0,1] of the test data. *)
Lemma one_verb_template_separates_entities_witness :
  Sprintf [Lit "cpu_core_"; Arg; Lit "_cstate"] ["0,0"]
  ≠ Sprintf [Lit "cpu_core_"; Arg; Lit "_cstate"] ["0,1"].
Proof.
  apply (one_verb_template_separates_entities
           [Lit "cpu_core_"; Arg; Lit "_cstate"] "0,0" "0,1").
  - reflexivity.
  - discriminate.
Defined.

(** ** Initialisation *)

(** X3 ([NvidiaSMI.Init]): [Init] looks the exec wrapper up only while
    [exec] is nil, and stores whatever [initNvidiaSMIExec] returns with a
    nil error.  It succeeds exactly when the wrapper is already set or the
    lookup returns no error; a module with a wrapper is left as it is, so
    once a non-nil wrapper is stored every later [Init] succeeds without
    changing the module, whatever the lookup would then say; when the
    lookup returns a nil wrapper and a nil error, [Init] still succeeds
    and the module, its [exec] nil, is as before; a failure leaves the
    wrapper nil and only logs the error. *)
Theorem nvidia_init_stores_lookup_result (nvidiaSMI : Type)
    (initNvidiaSMIExec :
       NvidiaSMI.NvidiaSMI nvidiaSMI -> option nvidiaSMI * option error)
    (nv : NvidiaSMI.NvidiaSMI nvidiaSMI) :
  let r := NvidiaSMI.Init initNvidiaSMIExec nv in
  (snd r = true
   ↔ is_Some (NvidiaSMI.exec nv) ∨ snd (initNvidiaSMIExec nv) = None)
  ∧ (is_Some (NvidiaSMI.exec nv) -> r = (nv, true))
  ∧ (NvidiaSMI.exec nv = None ->
     snd (initNvidiaSMIExec nv) = None ->
     fst r = NvidiaSMI.with_exec (fst (initNvidiaSMIExec nv)) nv)
  ∧ (snd r = true ->
     is_Some (NvidiaSMI.exec (fst r)) ->
     ∀ lookup, NvidiaSMI.Init lookup (fst r) = (fst r, true))
  ∧ (snd r = true ->
     NvidiaSMI.exec (fst r) = None ->
     initNvidiaSMIExec nv = (None, None) ∧ fst r = nv)
  ∧ (snd r = false ->
     NvidiaSMI.exec (fst r) = None
     ∧ ∃ err, snd (initNvidiaSMIExec nv) = Some err
              ∧ fst r = NvidiaSMI.with_base
                          (Error err (NvidiaSMI.base nv)) nv).
Proof.
  cbv zeta. unfold NvidiaSMI.Init.
  destruct (NvidiaSMI.exec nv) as [e|] eqn:He.
  - cbn [fst snd]. rewrite He.
    split; [|split; [|split; [|split; [|split]]]].
    + split; [|done]. intros _. left. by eexists.
    + done.
    + done.
    + by intros _ _ lookup.
    + done.
    + done.
  - destruct (initNvidiaSMIExec nv) as [smi [err|]] eqn:Hi; cbn [fst snd].
    + split; [|split; [|split; [|split; [|split]]]].
      * split; [done|]. intros [[? ?]|?]; done.
      * by intros [? ?].
      * done.
      * done.
      * done.
      * intros _. split; [done|]. by exists err.
    + split; [|split; [|split; [|split; [|split]]]].
      * split; [|done]. intros _. by right.
      * by intros [? ?].
      * done.
      * intros _ [smi' Hs] lookup. cbn in Hs. cbn. by rewrite Hs.
      * intros _ Hs. cbn in Hs. subst smi. split; [done|].
        destruct nv. cbn in He. by subst.
      * done.
Qed.

(** X4 ([WMI.Init]): [Init] never touches the configuration, the charts
    or the cache.  When it returns true both clients are set, the HTTP
    client being the one [initHTTPClient] built, and nothing is logged;
    when it returns false the Prometheus client is as before and one
    line is logged.  A failure of [initPrometheusClient] comes after the
    new HTTP client was stored, and leaves it stored. *)
Theorem wmi_init_effects initHTTPClient initPrometheusClient (w : WMI.WMI) :
  let r := WMI.Init initHTTPClient initPrometheusClient w in
  (WMI.config (fst r) = WMI.config w
   ∧ WMI.charts (fst r) = WMI.charts w
   ∧ WMI.wcache (fst r) = WMI.wcache w
   ∧ WMI.doCheck (fst r) = WMI.doCheck w)
  ∧ (snd r = true ->
     ∃ c p, initHTTPClient w = inr c
            ∧ WMI.httpClient (fst r) = Some c
            ∧ WMI.prom (fst r) = Some p
            ∧ WMI.base (fst r) = WMI.base w)
  ∧ (snd r = false ->
     WMI.prom (fst r) = WMI.prom w
     ∧ ∃ line, logged (WMI.base (fst r)) = logged (WMI.base w) ++ [line])
  ∧ (∀ c err,
       WMI.validateConfig w = None ->
       initHTTPClient w = inr c ->
       initPrometheusClient (WMI.with_httpClient (Some c) w) c = inl err ->
       snd r = false ∧ WMI.httpClient (fst r) = Some c).
Proof.
  cbv zeta. unfold WMI.Init.
  destruct (WMI.validateConfig w) as [verr|] eqn:Hv.
  { cbn [fst snd]. split; [done|]. split; [done|]. split; [|done].
    intros _. split; [done|]. by eexists. }
  destruct (initHTTPClient w) as [herr|c] eqn:Hc.
  { cbn [fst snd]. split; [done|]. split; [done|]. split; [|done].
    intros _. split; [done|]. by eexists. }
  cbv zeta.
  destruct (initPrometheusClient (WMI.with_httpClient (Some c) w) c)
    as [perr|p] eqn:Hp; cbn [fst snd].
  - split; [done|]. split; [done|]. split.
    + intros _. split; [done|]. by eexists.
    + intros c' err _ [= <-] _. done.
  - split; [done|]. split; [|split; [done|]].
    + intros _. by exists c, p.
    + intros c' err _ [= <-] Hp'. rewrite Hp in Hp'. done.
Qed.

(** ** What the collect tests compare *)

Lemma insert_eq_iff (k : string) (v : Z) (m want : gmap string Z) :
  <[k := v]> m = want ↔ want !! k = Some v ∧ delete k m = delete k want.
Proof.
  split.
  - intros <-. split; [apply lookup_insert_eq|].
    by rewrite delete_insert_eq.
  - intros [Hk Hd]. apply map_eq. intros i.
    destruct (decide (k = i)) as [<-|Hne].
    + by rewrite lookup_insert_eq.
    + rewrite lookup_insert_ne by done.
      apply (f_equal (fun x => x !! i)) in Hd.
      by rewrite !lookup_delete_ne in Hd.
Qed.

(** X5 ([TestWMI_Collect], [TestCassandra_Collect]): with a nil
    expectation the comparison passes exactly when the collected map is
    nil, which for [WMI.Collect] is exactly when the collection step
    yields no metric; with an expectation it passes exactly when the
    collected map is allocated, the expectation lists [system_up_time],
    and both maps agree on every other key: the collected up-time value
    is never compared. *)
Theorem collect_test_comparison (mx : Go.map Z) :
  (Harness.collectedAsWanted None mx ↔ mx = None)
  ∧ (∀ want : gmap string Z,
       Harness.collectedAsWanted (Some want) mx
       ↔ ∃ m, mx = Some m
              ∧ is_Some (want !! "system_up_time")
              ∧ delete "system_up_time" m = delete "system_up_time" want)
  ∧ (∀ collect w,
       Harness.collectedAsWanted None (snd (WMI.Collect collect w))
       ↔ Go.len (fst (snd (collect w))) = 0%nat).
Proof.
  unfold Harness.collectedAsWanted. split; [|split].
  - destruct mx; simpl; split; done.
  - intros want. destruct mx as [m|]; simpl.
    + split.
      * intros [= Heq]. symmetry in Heq. apply insert_eq_iff in Heq as [Hk Hd].
        exists m. split; [done|]. split; [by eexists|done].
      * intros (m' & [= <-] & [v Hv] & Hd). f_equal. symmetry.
        apply insert_eq_iff. rewrite Hv. done.
    + split; [done|]. by intros (m & ? & _).
  - intros collect w.
    pose proof (WMI_healthContract collect w) as (_ & _ & Hne & Hnil).
    destruct (snd (WMI.Collect collect w)) as [m|] eqn:Hr; simpl.
    + split; [done|]. intros Hz. by apply Hnil in Hz.
    + split; [|done]. intros _. revert Hr. unfold WMI.Collect.
      destruct (collect w) as [w' [ms err]]. cbn [fst snd].
      case_decide as Hz; [done|]. cbn [snd]. intros ->. by destruct Hz.
Qed.

Lemma ensureCollected_iff cs (mx : gmap string Z) :
  ensureCollectedHasAllChartsDimsVarsIDs cs mx
  ↔ ∀ chart d, chart ∈ cs -> d ∈ Dims chart ++ Vars chart -> is_Some (mx !! d).
Proof.
  unfold ensureCollectedHasAllChartsDimsVarsIDs. split.
  - intros Hall chart d Hc [?|?]%elem_of_app;
      destruct (Hall chart Hc) as [Hd Hv]; [by apply Hd|by apply Hv].
  - intros Hall chart Hc. split; intros d Hd; apply (Hall chart d Hc);
      apply elem_of_app; [by left|by right].
Qed.

(** X6 ([TestWMI_Collect], [testCharts]): the coverage check runs on the
    map after the overwrite of [system_up_time], so it passes exactly
    when every dimension and variable id other than [system_up_time] is
    a key of the collected map: it passes whenever the collected map
    itself covers the charts, and a chart that declares [system_up_time]
    is never found uncovered by it. *)
Theorem coverage_test_skips_up_time cs (want m : gmap string Z) :
  want ≠ ∅ ->
  (Harness.coverageAsTested cs (Some want) (Some m)
   ↔ ∀ chart d, chart ∈ cs -> d ∈ Dims chart ++ Vars chart ->
                d = "system_up_time" ∨ is_Some (m !! d))
  ∧ (ensureCollectedHasAllChartsDimsVarsIDs cs m ->
     Harness.coverageAsTested cs (Some want) (Some m)).
Proof.
  intros Hne.
  assert (0 < Go.len (Some want))%nat as Hpos.
  { apply len_pos_iff. by exists want. }
  assert (Harness.coverageAsTested cs (Some want) (Some m)
          ↔ ∀ chart d, chart ∈ cs -> d ∈ Dims chart ++ Vars chart ->
                       d = "system_up_time" ∨ is_Some (m !! d)) as Hiff.
  { unfold Harness.coverageAsTested, Harness.overwriteUpTime.
    change (default ∅ (Some ?x)) with x.
    rewrite ensureCollected_iff. split.
    - intros Hall chart d Hc Hd. specialize (Hall Hpos chart d Hc Hd).
      destruct (decide ("system_up_time" = d)) as [<-|Hk]; [by left|].
      right. by rewrite lookup_insert_ne in Hall.
    - intros Hall _ chart d Hc Hd.
      destruct (decide ("system_up_time" = d)) as [<-|Hk].
      + rewrite lookup_insert_eq. by eexists.
      + rewrite lookup_insert_ne by done.
        destruct (Hall chart d Hc Hd) as [->|?]; done. }
  split; [exact Hiff|]. intros Hcov. apply Hiff. intros chart d Hc Hd.
  right. by apply (proj1 (ensureCollected_iff cs m) Hcov chart d).
Qed.

(** A chart on [system_up_time] alone and a collected map without it. *)
Lemma coverage_test_skips_up_time_witness :
  Harness.coverageAsTested
    [{| ID := "system_uptime"; Dims := ["system_up_time"]; Vars := [] |}]
    (Some {["system_up_time" := 2890557]}) (Some {["system_threads" := 1559]}).
Proof.
  apply (proj1 (coverage_test_skips_up_time
                  [{| ID := "system_uptime"; Dims := ["system_up_time"];
                      Vars := [] |}]
                  {["system_up_time" := 2890557]}
                  {["system_threads" := 1559]}
                  (singleton_non_empty "system_up_time" 2890557))).
  intros chart d Hc Hd. apply list_elem_of_singleton in Hc as ->.
  cbn [Dims Vars app] in Hd. apply list_elem_of_singleton in Hd as ->.
  by left.
Defined.

(** ** The search for process dimensions *)

Lemma HasPrefix_app s a b :
  Harness.HasPrefix s (a +:+ b) = true -> Harness.HasPrefix s a = true.
Proof.
  revert s. induction a as [|c a IH]; intros s; [by destruct s|].
  destruct s as [|d s]; simpl; [done|]. case_decide; [apply IH|done].
Qed.

Lemma hasProcessDim_prefix chart proc rest :
  Harness.hasProcessDim chart (proc +:+ rest) = true ->
  Harness.hasProcessDim chart proc = true.
Proof.
  unfold Harness.hasProcessDim. rewrite !existsb_exists.
  intros (dim & Hin & Hp). exists dim. split; [done|].
  apply (HasPrefix_app dim ("process_" +:+ proc) rest). exact Hp.
Qed.

(** X7 ([ensureChartsDimsCreated], the loop over [cache.processes]): the
    search is by prefix, so a check passed for the cached processes is
    passed as well for any cache whose processes are beginnings of those
    names, on the same charts; and it passes for any cache when the Chart
    Set holds none of the processes charts. *)
Theorem process_check_is_by_prefix processesCharts (w w' : WMI.WMI) :
  WMI.charts w' = WMI.charts w ->
  (∀ proc', proc' ∈ dom (WMI.processes (WMI.wcache w')) ->
     ∃ proc rest, proc ∈ dom (WMI.processes (WMI.wcache w))
                  ∧ proc = proc' +:+ rest) ->
  (Harness.processesDimsCreated processesCharts w ->
   Harness.processesDimsCreated processesCharts w')
  ∧ ((∀ chart, chart ∈ processesCharts ->
               Has (WMI.charts w) (ID chart) = false) ->
     Harness.processesDimsCreated processesCharts w').
Proof.
  intros Hcs Hprocs. unfold Harness.processesDimsCreated. rewrite Hcs. split.
  - intros Hall chart Hc. specialize (Hall chart Hc).
    destruct (Get (WMI.charts w) (ID chart)) as [found|]; [|done].
    intros proc' Hp'. destruct (Hprocs proc' Hp') as (proc & rest & Hp & ->).
    by apply (hasProcessDim_prefix found proc' rest), Hall.
  - intros Hnone chart Hc. specialize (Hnone chart Hc). unfold Has in Hnone.
    by destruct (Get (WMI.charts w) (ID chart)).
Qed.

(** The dimension of the process [msedge] of the test data answers for a
    cached process [ms]. *)
Lemma process_check_is_by_prefix_witness :
  Harness.processesDimsCreated
    [{| ID := "processes_cpu_time"; Dims := ["process_msedge_cpu_time"];
        Vars := [] |}]
    (WMI.with_cache
       (WMI.with_registry process {["ms" := true]} (WMI.wcache WMI.New))
       (WMI.with_charts
          [{| ID := "processes_cpu_time"; Dims := ["process_msedge_cpu_time"];
              Vars := [] |}]
          WMI.New)).
Proof.
  set (chart := {| ID := "processes_cpu_time";
                   Dims := ["process_msedge_cpu_time"]; Vars := [] |}).
  set (w := WMI.with_cache
              (WMI.with_registry process {["msedge" := true]}
                 (WMI.wcache WMI.New))
              (WMI.with_charts [chart] WMI.New)).
  set (w' := WMI.with_cache
               (WMI.with_registry process {["ms" := true]}
                  (WMI.wcache WMI.New))
               (WMI.with_charts [chart] WMI.New)).
  assert (∀ proc', proc' ∈ dom (WMI.processes (WMI.wcache w')) ->
            ∃ proc rest, proc ∈ dom (WMI.processes (WMI.wcache w))
                         ∧ proc = proc' +:+ rest) as Hprocs.
  { intros proc' Hin. cbn in Hin. rewrite dom_singleton_L in Hin.
    apply elem_of_singleton in Hin as ->.
    exists "msedge", "edge". split; [|reflexivity].
    cbn. rewrite dom_singleton_L. by apply elem_of_singleton. }
  apply (proj1 (process_check_is_by_prefix [chart] w w' eq_refl Hprocs)).
  intros chart0 Hc. apply list_elem_of_singleton in Hc as ->.
  cbn. rewrite decide_True by done.
  intros proc Hp. rewrite dom_singleton_L in Hp.
  apply elem_of_singleton in Hp as ->. reflexivity.
Defined.
